(** * cardano-launcher: the Launcher, its exit aggregation and its API parameters

    A shallow embedding of [src/cardanoLauncher.ts] and of [combineStatus]
    from [src/cli.ts].  Promises, timers and process events are modelled by
    an event loop: one [Event] is one turn of the loop, [step] runs the code
    of that turn on the state of one [Launcher] instance, and [run] runs a
    whole schedule.  Everything the instance does to the outside world (spawns,
    termination signals, connection attempts, notifications) is appended to
    its [log]. *)

From Stdlib Require Import ZArith List String Bool Lia DecimalString.
From stdpp Require Import base option list strings.
Import ListNotations.

(** ** JavaScript values *)

(** Template-literal rendering of an integral number ([`${port}`]). *)
Definition numberToString (n : Z) : string :=
  NilZero.string_of_int (Z.to_int n).

(** [x === undefined] for an optional field. *)
Definition is_undefined {A} (x : option A) : bool :=
  match x with None => true | Some _ => false end.

(** The line feed used by [join('\n')]. *)
Definition newline : string := String (Ascii.ascii_of_nat 10) EmptyString.

(** [Array.prototype.join]. *)
Definition join (sep : string) (xs : list string) : string :=
  String.concat sep xs.

(** ** Exit statuses (declared in the service module, used by both files) *)

(** [null] is [None]. *)
Record ServiceExitStatus := {
  exe : string;
  code : option Z;
  signal : option string;
  err : option string
}.

(** An object with string keys, its own properties in insertion order
    (the order [_.map] visits them in). *)
Definition JsObject (A : Type) : Type := list (string * A).

Definition prop {A} (key : string) (o : JsObject A) : option A :=
  snd <$> List.find (fun kv => String.eqb (fst kv) key) o.

(** [_.map(object, f)]: the values in property order. *)
Definition lodash_map {A B} (o : JsObject A) (f : A -> B) : list B :=
  List.map (fun kv => f (snd kv)) o.

(** [interface ExitStatus { wallet, node }]. *)
Definition ExitStatus : Type := JsObject ServiceExitStatus.

(** ** cli.ts *)

(** [_.reduce(statuses, (res, status) => res === null ? status.code : res, null)]
    and the same for [signal], then the final conditional. *)
Definition combineStatus (statuses : list ServiceExitStatus) : Z :=
  let code :=
    fold_left (fun (res : option Z) status =>
                 match res with None => code status | Some _ => res end)
              statuses None in
  let signal :=
    fold_left (fun (res : option string) status =>
                 match res with None => signal status | Some _ => res end)
              statuses None in
  match code with
  | None => match signal with None => 0%Z | Some _ => 127%Z end
  | Some c => c
  end.

(** The description of [combineStatus] in words: the first code that is not
    null, in list order. *)
Fixpoint firstCode (statuses : list ServiceExitStatus) : option Z :=
  match statuses with
  | [] => None
  | s :: rest => match code s with Some c => Some c | None => firstCode rest end
  end.

(** Some entry has a signal that is not null. *)
Definition anySignal (statuses : list ServiceExitStatus) : bool :=
  existsb (fun s => match signal s with Some _ => true | None => false end) statuses.

Definition exited_with (c : option Z) (sg : option string) : ServiceExitStatus :=
  {| exe := "cardano-wallet"; code := c; signal := sg; err := None |}.

(** ** API connection parameters *)

Record RequestParams := {
  port : Z;
  path : string;
  hostname : string
}.

Record Api := {
  baseUrl : string;
  requestParams : RequestParams
}.

(** [class V2Api], its constructor. *)
Definition V2Api (port : Z) : Api :=
  let hostname := "127.0.0.1" in
  let path := "/v2/" in
  {| baseUrl := "http://" +:+ hostname +:+ ":" +:+ numberToString port +:+ path;
     requestParams := {| port := port; path := path; hostname := hostname |} |}.

(** ** Errors, completions and promises *)

(** An [Error]; [status] is the extra field of [BackendExitedError]. *)
Record JsError := {
  message : string;
  status : option ExitStatus
}.

Definition Error (msg : string) : JsError :=
  {| message := msg; status := None |}.

(** How a synchronous piece of code ends. *)
Inductive Completion (A : Type) : Type :=
| Normal (a : A)
| Throw (e : JsError).
Arguments Normal {A} a.
Arguments Throw {A} e.

Inductive Promise (A : Type) : Type :=
| Pending
| Fulfilled (a : A)
| Rejected (e : JsError).
Arguments Pending {A}.
Arguments Fulfilled {A} a.
Arguments Rejected {A} e.

(** The promise an [async] function returns for a body that ends as [c]:
    a [throw] in the body rejects the promise, it does not reach the caller. *)
Definition async {A} (c : Completion A) : Promise A :=
  match c with
  | Normal a => Fulfilled a
  | Throw e => Rejected e
  end.

(** ** Launch configuration *)

Module Config.

(** Of the backend configurations (declared in the byron, shelley and
    jormungandr modules) only the fields that the launcher reads. *)
Record ByronNetwork := { genesisFile : option string }.

Record ByronNodeConfig := {
  network : ByronNetwork;
  socketFile : option string
}.

Record JormungandrConfig := {
  restPort : option Z;
  genesisBlockHash : string  (* network.genesisBlock.hash *)
}.

Inductive NodeConfig :=
| byron (c : ByronNodeConfig)
| shelley
| jormungandr (c : JormungandrConfig).

Definition kind (n : NodeConfig) : string :=
  match n with
  | byron _ => "byron"
  | shelley => "shelley"
  | jormungandr _ => "jormungandr"
  end.

(** [interface LaunchConfig]; an absent optional field is [None]. *)
Record LaunchConfig := {
  stateDir : string;
  networkName : string;
  apiPort : option Z;
  listenAddress : option string;
  stakePoolRegistryUrl : option string;
  syncToleranceSeconds : option Z;
  nodeConfig : NodeConfig;
  installSignalHandlers : option bool
}.

End Config.

(** ** Process descriptions *)

(** A command-line argument: a string, or [path.join(dir, name)] kept as is. *)
Inductive Arg :=
| Lit (s : string)
| PathJoin (dir name : string).

Record StartService := {
  command : string;
  args : list Arg;
  extraEnv : option (JsObject string);
  supportsCleanShutdown : bool
}.

Module WalletStartService.
(** [interface WalletStartService extends StartService]. *)
Record t := {
  service : StartService;
  apiPort : Z
}.
End WalletStartService.

(** [_.assign(base, { args: base.args.concat(args) })]. *)
Definition addArgs (base : WalletStartService.t) (more : list Arg) : WalletStartService.t :=
  {| WalletStartService.service :=
       (let b := WalletStartService.service base in
        {| command := command b;
           args := args b ++ more;
           extraEnv := extraEnv b;
           supportsCleanShutdown := supportsCleanShutdown b |});
     WalletStartService.apiPort := WalletStartService.apiPort base |}.

(** The body of [walletExe]; [freePort] is what [getPort()] answers when it
    is asked. *)
Definition walletExe_body (baseDir : string) (config : Config.LaunchConfig)
    (freePort : Z) : Completion WalletStartService.t :=
  let apiPort := default freePort (Config.apiPort config) in
  let base : WalletStartService.t :=
    {| WalletStartService.service :=
         {| command := "cardano-wallet-" +:+ Config.kind (Config.nodeConfig config);
            args :=
              [Lit "serve"; Lit "--shutdown-handler"; Lit "--port";
               Lit (numberToString apiPort); Lit "--database";
               PathJoin baseDir "wallets"]
              ++ match Config.listenAddress config with
                 | Some a => [Lit "--listen-address"; Lit a]
                 | None => []
                 end
              ++ match Config.syncToleranceSeconds config with
                 | Some s => [Lit "--sync-tolerance"; Lit (numberToString s +:+ "s")]
                 | None => []
                 end;
            extraEnv :=
              match Config.stakePoolRegistryUrl config with
              | Some u => Some [("CARDANO_WALLET_STAKE_POOL_REGISTRY_URL", u)]
              | None => None
              end;
            supportsCleanShutdown := true |};
       WalletStartService.apiPort := apiPort |} in
  match Config.nodeConfig config with
  | Config.jormungandr c =>
      Normal (addArgs base
        (match Config.restPort c with
         | Some p => [Lit "--node-port"; Lit (numberToString p)]
         | None => []
         end ++ [Lit "--genesis-block-hash"; Lit (Config.genesisBlockHash c)]))
  | Config.byron c =>
      if negb (String.eqb (Config.networkName config) "mainnet")
         && is_undefined (Config.genesisFile (Config.network c))
      then Throw (Error "ByronNetwork.genesisFile must be configured")
      else
        Normal (addArgs base
          ((if String.eqb (Config.networkName config) "mainnet"
            then [Lit "--mainnet"]
            else [Lit "--testnet";
                  Lit (default "undefined" (Config.genesisFile (Config.network c)))])
           ++ match Config.socketFile c with
              | Some f => [Lit "--node-socket"; Lit f]
              | None => []
              end))
  | Config.shelley => Normal base
  end.

(** [async function walletExe]. *)
Definition walletExe (baseDir : string) (config : Config.LaunchConfig)
    (freePort : Z) : Promise WalletStartService.t :=
  async (walletExe_body baseDir config freePort).

(** ** The Service of one process *)

(** [enum ServiceStatus]. *)
Inductive ServiceStatus := Starting | Started | Stopping | Stopped.

(** The numeric value of an enum member, which [>] compares. *)
Definition statusValue (s : ServiceStatus) : nat :=
  match s with
  | Starting => 0
  | Started => 1
  | Stopping => 2
  | Stopped => 3
  end.

Definition status_gt (a b : ServiceStatus) : bool :=
  statusValue b <? statusValue a.

(** A request to terminate a process: the graceful one, or the forced kill. *)
Inductive Signal := Graceful | Kill.

(** What the operating system reports when a process has exited: exactly
    one of the exit code and the signal name. *)
Inductive ExitReport :=
| ExitCode (c : Z)
| ExitSignal (name : string).

(** Modelled from the spec: the Service of the service module, which is not
    among the sources.  It holds the current status, whether [start()] was
    called, the process description once it was awaited, whether the process
    was spawned (the promise of [start()] is then fulfilled), the exit status
    once terminal, and whether the forced kill was already sent. *)
Record Service := {
  getStatus : ServiceStatus;
  startCalled : bool;
  getConfig : option StartService;
  spawned : bool;
  exitStatus : option ServiceExitStatus;
  killSent : bool
}.

(** Modelled from the spec: a Service as [setupService] returns it. *)
Definition setupService : Service :=
  {| getStatus := Starting; startCalled := false; getConfig := None;
     spawned := false; exitStatus := None; killSent := false |}.

(** Modelled from the spec: [Service.start()] is idempotent, a second call
    spawns nothing more. *)
Definition Service_start (s : Service) : Service :=
  {| getStatus := getStatus s; startCalled := true; getConfig := getConfig s;
     spawned := spawned s; exitStatus := exitStatus s; killSent := killSent s |}.

(** Modelled from the spec: the process was spawned, [Starting] to
    [Started].  Possible once [start()] was called and the description [d]
    is there. *)
Definition Service_spawned (d : StartService) (s : Service) : option Service :=
  match getStatus s with
  | Starting =>
      if startCalled s && negb (spawned s)
      then Some {| getStatus := Started; startCalled := true; getConfig := Some d;
                   spawned := true; exitStatus := None; killSent := killSent s |}
      else None
  | _ => None
  end.

(** Modelled from the spec: the spawn failed, [Starting] to [Stopped]
    directly, with [err] set and [code] and [signal] unset. *)
Definition Service_spawnFailed (d : StartService) (msg : string) (s : Service)
    : option Service :=
  match getStatus s with
  | Starting =>
      if startCalled s && negb (spawned s)
      then Some {| getStatus := Stopped; startCalled := true; getConfig := Some d;
                   spawned := false;
                   exitStatus := Some {| exe := command d; code := None;
                                         signal := None; err := Some msg |};
                   killSent := killSent s |}
      else None
  | _ => None
  end.

Definition exitStatusOf (name : string) (r : ExitReport) : ServiceExitStatus :=
  match r with
  | ExitCode c => {| exe := name; code := Some c; signal := None; err := None |}
  | ExitSignal sg => {| exe := name; code := None; signal := Some sg; err := None |}
  end.

(** Modelled from the spec: the operating system confirms that the process
    has exited; a running process goes (through [Stopping]) to [Stopped] and
    the report is kept. *)
Definition Service_exited (r : ExitReport) (s : Service) : option Service :=
  match getStatus s with
  | Started | Stopping =>
      Some {| getStatus := Stopped; startCalled := startCalled s;
              getConfig := getConfig s; spawned := spawned s;
              exitStatus :=
                Some (exitStatusOf (default "" (command <$> getConfig s)) r);
              killSent := killSent s |}
  | _ => None
  end.

(** Modelled from the spec: [Service.stop(timeoutSeconds)], with the signals
    it sends.  A running process is asked to terminate, gracefully when the
    description supports it and the timeout is positive and by a kill
    otherwise; a service that is already stopping gets the kill when the
    timeout is 0 and no kill was sent yet, and nothing otherwise; a stopped
    one gets nothing.  The spec has no transition for a service that is
    still [Starting]: no signal is sent.  The promise of every call is
    fulfilled with [exitStatus] once the status is [Stopped]. *)
Definition Service_stop (timeoutSeconds : Z) (s : Service) : Service * list Signal :=
  match getStatus s with
  | Started =>
      let clean := default false (supportsCleanShutdown <$> getConfig s) in
      let sg := if clean && (0 <? timeoutSeconds)%Z then Graceful else Kill in
      ({| getStatus := Stopping; startCalled := startCalled s;
          getConfig := getConfig s; spawned := spawned s;
          exitStatus := exitStatus s;
          killSent := match sg with Kill => true | Graceful => false end |},
       [sg])
  | Stopping =>
      if (timeoutSeconds =? 0)%Z && negb (killSent s)
      then ({| getStatus := Stopping; startCalled := startCalled s;
               getConfig := getConfig s; spawned := spawned s;
               exitStatus := exitStatus s; killSent := true |},
            [Kill])
      else (s, [])
  | Starting | Stopped => (s, [])
  end.

(** Modelled from the spec: the deadline of a graceful stop passes while
    the process is still there, and the stop escalates to the kill. *)
Definition Service_killTimer (s : Service) : option Service :=
  match getStatus s with
  | Stopping =>
      if killSent s then None
      else Some {| getStatus := Stopping; startCalled := startCalled s;
                   getConfig := getConfig s; spawned := spawned s;
                   exitStatus := exitStatus s; killSent := true |}
  | _ => None
  end.

(** Modelled from the spec: [formatMessage] of the exit aggregator, the one
    line of [serviceExitStatusMessage] for one process: the code, else the
    signal, else the captured error message. *)
Definition formatMessage (st : ServiceExitStatus) : string :=
  match code st with
  | Some n => exe st +:+ " exited with code " +:+ numberToString n
  | None =>
      match signal st with
      | Some sg => exe st +:+ " exited with signal " +:+ sg
      | None => default "" (err st)
      end
  end.

(** ** The Launcher *)

Inductive Who := Wallet | Node.

Inductive Notification :=
| Ready (api : Api)
| Exit (status : ExitStatus).

(** What the instance does to the outside world. *)
Inductive Obs :=
| ObsNodeCommand                       (* the node's description was computed *)
| ObsWalletCommand                     (* [walletExe] was run *)
| ObsSpawn (w : Who) (ok : bool)       (* a spawn, and whether it was confirmed *)
| ObsSignal (w : Who) (sg : Signal)    (* a termination signal was sent *)
| ObsConnect (port : Z)                (* a TCP connection attempt *)
| ObsEmit (n : Notification).          (* [walletBackend.events.emit] *)

(** One call of [Launcher.start()], by the place it is suspended at. *)
Inductive StartCall :=
| AwaitNodeStart       (* [await this.nodeService.start()] *)
| AwaitWalletStart     (* [await this.walletService.start()] *)
| AwaitReadyOrExit     (* the last promise, its two listeners registered *)
| StartFulfilled (api : Api)
| StartRejected (e : JsError).

(** One call of [waitForApi]: the interval timer, the promise, and the
    sockets whose connection attempt is still open. *)
Record Poller := {
  timer : bool;
  outcome : Promise unit;
  sockets : nat
}.

(** [resolve(v)] and [reject(e)] of a promise: the first one wins. *)
Definition settle {A} (new : Promise A) (p : Promise A) : Promise A :=
  match p with
  | Pending => new
  | _ => p
  end.

Record Launcher := {
  config : Config.LaunchConfig;
  start_node : Promise StartService;            (* [start.node] *)
  start_wallet : Promise WalletStartService.t;  (* [start.wallet] *)
  walletService : Service;
  nodeService : Service;
  apiPort : Z;
  exited : bool;
  starts : list StartCall;               (* the calls of [start()] *)
  pollers : list Poller;                 (* the calls of [waitForApi] *)
  stops : list (option ExitStatus);      (* the calls of [stop()], and their results *)
  log : list Obs                         (* newest first *)
}.

Definition set_start_node (v : Promise StartService) (l : Launcher) : Launcher :=
  {| config := config l; start_node := v; start_wallet := start_wallet l;
     walletService := walletService l; nodeService := nodeService l;
     apiPort := apiPort l; exited := exited l; starts := starts l;
     pollers := pollers l; stops := stops l; log := log l |}.

Definition set_start_wallet (v : Promise WalletStartService.t) (l : Launcher) : Launcher :=
  {| config := config l; start_node := start_node l; start_wallet := v;
     walletService := walletService l; nodeService := nodeService l;
     apiPort := apiPort l; exited := exited l; starts := starts l;
     pollers := pollers l; stops := stops l; log := log l |}.

Definition set_walletService (v : Service) (l : Launcher) : Launcher :=
  {| config := config l; start_node := start_node l; start_wallet := start_wallet l;
     walletService := v; nodeService := nodeService l;
     apiPort := apiPort l; exited := exited l; starts := starts l;
     pollers := pollers l; stops := stops l; log := log l |}.

Definition set_nodeService (v : Service) (l : Launcher) : Launcher :=
  {| config := config l; start_node := start_node l; start_wallet := start_wallet l;
     walletService := walletService l; nodeService := v;
     apiPort := apiPort l; exited := exited l; starts := starts l;
     pollers := pollers l; stops := stops l; log := log l |}.

Definition set_apiPort (v : Z) (l : Launcher) : Launcher :=
  {| config := config l; start_node := start_node l; start_wallet := start_wallet l;
     walletService := walletService l; nodeService := nodeService l;
     apiPort := v; exited := exited l; starts := starts l;
     pollers := pollers l; stops := stops l; log := log l |}.

Definition set_exited (v : bool) (l : Launcher) : Launcher :=
  {| config := config l; start_node := start_node l; start_wallet := start_wallet l;
     walletService := walletService l; nodeService := nodeService l;
     apiPort := apiPort l; exited := v; starts := starts l;
     pollers := pollers l; stops := stops l; log := log l |}.

Definition set_starts (v : list StartCall) (l : Launcher) : Launcher :=
  {| config := config l; start_node := start_node l; start_wallet := start_wallet l;
     walletService := walletService l; nodeService := nodeService l;
     apiPort := apiPort l; exited := exited l; starts := v;
     pollers := pollers l; stops := stops l; log := log l |}.

Definition set_pollers (v : list Poller) (l : Launcher) : Launcher :=
  {| config := config l; start_node := start_node l; start_wallet := start_wallet l;
     walletService := walletService l; nodeService := nodeService l;
     apiPort := apiPort l; exited := exited l; starts := starts l;
     pollers := v; stops := stops l; log := log l |}.

Definition set_stops (v : list (option ExitStatus)) (l : Launcher) : Launcher :=
  {| config := config l; start_node := start_node l; start_wallet := start_wallet l;
     walletService := walletService l; nodeService := nodeService l;
     apiPort := apiPort l; exited := exited l; starts := starts l;
     pollers := pollers l; stops := v; log := log l |}.

Definition record (o : Obs) (l : Launcher) : Launcher :=
  {| config := config l; start_node := start_node l; start_wallet := start_wallet l;
     walletService := walletService l; nodeService := nodeService l;
     apiPort := apiPort l; exited := exited l; starts := starts l;
     pollers := pollers l; stops := stops l; log := o :: log l |}.

Definition service (w : Who) (l : Launcher) : Service :=
  match w with
  | Wallet => walletService l
  | Node => nodeService l
  end.

Definition set_service (w : Who) (s : Service) (l : Launcher) : Launcher :=
  match w with
  | Wallet => set_walletService s l
  | Node => set_nodeService s l
  end.

(** The description promise that [setupService] was given for a service. *)
Definition description (w : Who) (l : Launcher) : option StartService :=
  match w with
  | Wallet =>
      match start_wallet l with
      | Fulfilled d => Some (WalletStartService.service d)
      | _ => None
      end
  | Node =>
      match start_node l with
      | Fulfilled d => Some d
      | _ => None
      end
  end.

(** [makeServiceCommands]: it starts the chain [mkdirp], [nodeExe],
    [walletExe] and returns the two promises, both still pending. *)
Definition makeServiceCommands (config : Config.LaunchConfig)
    : Completion (Promise WalletStartService.t * Promise StartService) :=
  Normal (Pending, Pending).

(** The constructor: the state of a new instance. *)
Definition Launcher_new (config : Config.LaunchConfig) : Completion Launcher :=
  match makeServiceCommands config with
  | Normal (wallet, node) =>
      Normal {| config := config; start_node := node; start_wallet := wallet;
                walletService := setupService; nodeService := setupService;
                apiPort := 0; exited := false; starts := []; pollers := [];
                stops := []; log := [] |}
  | Throw e => Throw e
  end.

(** [walletBackend.getApi]. *)
Definition getApi (l : Launcher) : Api := V2Api (apiPort l).

(** The callback [stopWaiting] of [start()]. *)
Definition stopWaiting (l : Launcher) : bool :=
  status_gt (getStatus (nodeService l)) Started
  || status_gt (getStatus (walletService l)) Started.

(** A call of [stop] on one of the two services; the signals go to the log. *)
Definition stopService (w : Who) (timeoutSeconds : Z) (l : Launcher) : Launcher :=
  let '(s, sent) := Service_stop timeoutSeconds (service w l) in
  fold_left (fun l sg => record (ObsSignal w sg) l) sent (set_service w s l).

(** [Launcher.stop] up to its [Promise.all]: both services are told to stop,
    the wallet first, and the call waits for both. *)
Definition Launcher_stop (timeoutSeconds : Z) (l : Launcher) : Launcher :=
  let l := stopService Wallet timeoutSeconds l in
  let l := stopService Node timeoutSeconds l in
  set_stops (stops l ++ [None]) l.

(** The [statusChanged] listener that the constructor puts on each of the
    two services. *)
Definition onStatusChanged (st : ServiceStatus) (l : Launcher) : Launcher :=
  match st with
  | Stopped => Launcher_stop 60 l
  | _ => l
  end.

(** The handler of [installSignalHandlers]. *)
Definition onTerminationSignal (l : Launcher) : Launcher :=
  stopService Node 0 (stopService Wallet 0 l).

(** [Launcher.start] up to its first [await]. *)
Definition Launcher_start (l : Launcher) : Launcher :=
  set_starts (starts l ++ [AwaitNodeStart])
    (set_nodeService (Service_start (nodeService l)) l).

(** [start()] goes on after [await this.nodeService.start()]. *)
Definition start_after_node (i : nat) (l : Launcher) : Launcher :=
  set_starts (<[i := AwaitWalletStart]> (starts l))
    (set_walletService (Service_start (walletService l)) l).

(** [start()] goes on after [await this.walletService.start()]: it calls
    [waitForApi], which sets the interval timer, and registers the listeners
    of its last promise. *)
Definition start_after_wallet (i : nat) (l : Launcher) : Launcher :=
  set_starts (<[i := AwaitReadyOrExit]> (starts l))
    (set_pollers (pollers l ++ [{| timer := true; outcome := Pending; sockets := 0 |}]) l).

(** [emit('ready', api)]: the listener [resolve] of every waiting [start()]. *)
Definition emitReady (api : Api) (l : Launcher) : Launcher :=
  set_starts
    (List.map (fun c => match c with
                        | AwaitReadyOrExit => StartFulfilled api
                        | _ => c
                        end) (starts l))
    (record (ObsEmit (Ready api)) l).

(** The arrow function [poll] of [waitForApi], for the poller [j]. *)
Definition poll (j : nat) (p : Poller) (l : Launcher) : Launcher :=
  if stopWaiting l then
    set_pollers (<[j := {| timer := false;
                           outcome := settle (Rejected (Error "Polling stopped")) (outcome p);
                           sockets := sockets p |}]> (pollers l)) l
  else if negb (apiPort l =? 0)%Z then
    record (ObsConnect (apiPort l))
      (set_pollers (<[j := {| timer := timer p; outcome := outcome p;
                              sockets := S (sockets p) |}]> (pollers l)) l)
  else l.

(** The callback of [client.connect] for a socket of the poller [j], and
    the [then] of [start()] behind it when this fulfils the promise. *)
Definition connected (j : nat) (p : Poller) (l : Launcher) : Launcher :=
  let l' :=
    set_pollers (<[j := {| timer := false;
                           outcome := settle (Fulfilled tt) (outcome p);
                           sockets := pred (sockets p) |}]> (pollers l)) l in
  match outcome p with
  | Pending => emitReady (getApi l') l'
  | _ => l'
  end.

(** The listener of [client.on('error')]: it only logs. *)
Definition connectFailed (j : nat) (p : Poller) (l : Launcher) : Launcher :=
  set_pollers (<[j := {| timer := timer p; outcome := outcome p;
                         sockets := pred (sockets p) |}]> (pollers l)) l.

(** The chain [mkdirp(...).then(nodeExe)] settles as [r]; a rejection goes on
    to [start.wallet], which is chained to it. *)
Definition nodeCommandSettled (r : Completion StartService) (l : Launcher) : Launcher :=
  match r with
  | Normal d => record ObsNodeCommand (set_start_node (Fulfilled d) l)
  | Throw e => set_start_wallet (Rejected e) (set_start_node (Rejected e) l)
  end.

(** [walletExe] is run, and the [then] of the constructor records the port. *)
Definition walletCommandSettled (freePort : Z) (l : Launcher) : Launcher :=
  let p := walletExe (Config.stateDir (config l)) (config l) freePort in
  let l := record ObsWalletCommand (set_start_wallet p l) in
  match p with
  | Fulfilled startService => set_apiPort (WalletStartService.apiPort startService) l
  | _ => l
  end.

(** One turn of the event loop. *)
Inductive Event :=
| CallStart                                   (* the application calls [start()] *)
| CallStop (timeoutSeconds : Z)               (* the application calls [stop(t)] *)
| NodeCommand (r : Completion StartService)   (* [mkdirp(...).then(nodeExe)] settles *)
| WalletCommand (freePort : Z)                (* [walletExe] runs *)
| ResumeStart (i : nat)                       (* the call [i] of [start()] passes an [await] *)
| Spawned (w : Who)                           (* a process was spawned *)
| SpawnFailed (w : Who) (msg : string)        (* a process could not be spawned *)
| ProcessExited (w : Who) (r : ExitReport)    (* a process has exited *)
| KillTimer (w : Who)                         (* the deadline of a graceful stop *)
| TerminationSignal                           (* SIGINT, SIGTERM, SIGHUP or SIGBREAK *)
| PollTick (j : nat)                          (* the interval timer of the poller [j] *)
| SocketConnected (j : nat)                   (* a socket of the poller [j] is connected *)
| SocketError (j : nat)                       (* a socket of the poller [j] fails *)
| StopSettled (k : nat).                      (* [Promise.all] of the call [k] of [stop()] *)

Section Launcher.

(** [serviceExitStatusMessage] of the service module: the one line for
    one process. *)
Variable serviceExitStatusMessage : ServiceExitStatus -> string.

(** [exitStatusMessage]. *)
Definition exitStatusMessage (status : ExitStatus) : string :=
  join newline (lodash_map status serviceExitStatusMessage).

(** [class BackendExitedError], its constructor. *)
Definition BackendExitedError (status : ExitStatus) : JsError :=
  {| message := exitStatusMessage status; status := Some status |}.

(** [emit('exit', status)]: the listener of every waiting [start()]
    rejects with a [BackendExitedError]. *)
Definition emitExit (st : ExitStatus) (l : Launcher) : Launcher :=
  set_starts
    (List.map (fun c => match c with
                        | AwaitReadyOrExit => StartRejected (BackendExitedError st)
                        | _ => c
                        end) (starts l))
    (record (ObsEmit (Exit st)) l).

(** The [then] of [Launcher.stop], for the call [k] and the two exit
    statuses that the services answered with. *)
Definition stop_then (k : nat) (wallet node : ServiceExitStatus) (l : Launcher)
    : Launcher :=
  let status : ExitStatus := [("wallet", wallet); ("node", node)] in
  let l := if negb (exited l)
           then set_exited true (emitExit status l)
           else l in
  set_stops (<[k := Some status]> (stops l)) l.

(** The code that runs in one turn; [None] when the turn cannot happen in
    this state. *)
Definition step (e : Event) (l : Launcher) : option Launcher :=
  match e with
  | CallStart => Some (Launcher_start l)
  | CallStop timeoutSeconds => Some (Launcher_stop timeoutSeconds l)
  | NodeCommand r =>
      match start_node l with
      | Pending => Some (nodeCommandSettled r l)
      | _ => None
      end
  | WalletCommand freePort =>
      match start_node l, start_wallet l with
      | Fulfilled _, Pending => Some (walletCommandSettled freePort l)
      | _, _ => None
      end
  | ResumeStart i =>
      match starts l !! i with
      | Some AwaitNodeStart =>
          if spawned (nodeService l) then Some (start_after_node i l) else None
      | Some AwaitWalletStart =>
          if spawned (walletService l) then Some (start_after_wallet i l) else None
      | _ => None
      end
  | Spawned w =>
      d ← description w l;
      s ← Service_spawned d (service w l);
      Some (onStatusChanged Started (record (ObsSpawn w true) (set_service w s l)))
  | SpawnFailed w msg =>
      d ← description w l;
      s ← Service_spawnFailed d msg (service w l);
      Some (onStatusChanged Stopped (record (ObsSpawn w false) (set_service w s l)))
  | ProcessExited w r =>
      s ← Service_exited r (service w l);
      Some (onStatusChanged Stopped (set_service w s l))
  | KillTimer w =>
      s ← Service_killTimer (service w l);
      Some (record (ObsSignal w Kill) (set_service w s l))
  | TerminationSignal =>
      if default true (Config.installSignalHandlers (config l))
      then Some (onTerminationSignal l)
      else None
  | PollTick j =>
      p ← pollers l !! j;
      if timer p then Some (poll j p l) else None
  | SocketConnected j =>
      p ← pollers l !! j;
      if (0 <? sockets p)%nat then Some (connected j p l) else None
  | SocketError j =>
      p ← pollers l !! j;
      if (0 <? sockets p)%nat then Some (connectFailed j p l) else None
  | StopSettled k =>
      match stops l !! k, getStatus (walletService l), getStatus (nodeService l),
            exitStatus (walletService l), exitStatus (nodeService l) with
      | Some None, Stopped, Stopped, Some wallet, Some node =>
          Some (stop_then k wallet node l)
      | _, _, _, _, _ => None
      end
  end.

(** A schedule, turn by turn. *)
Fixpoint run (schedule : list Event) (l : Launcher) : option Launcher :=
  match schedule with
  | [] => Some l
  | e :: rest =>
      match step e l with
      | Some l' => run rest l'
      | None => None
      end
  end.

End Launcher.

(** ** Reading the log *)

Definition isExit (o : Obs) : bool :=
  match o with ObsEmit (Exit _) => true | _ => false end.

Definition isReady (o : Obs) : bool :=
  match o with ObsEmit (Ready _) => true | _ => false end.

Definition isSignal (o : Obs) : bool :=
  match o with ObsSignal _ _ => true | _ => false end.

Definition isWalletSpawn (o : Obs) : bool :=
  match o with ObsSpawn Wallet _ => true | _ => false end.

(** How often the exit notification, and the ready notification, fired. *)
Definition exitCount (l : Launcher) : nat := length (List.filter isExit (log l)).
Definition readyCount (l : Launcher) : nat := length (List.filter isReady (log l)).

(** The termination signals sent so far. *)
Definition signalsSent (l : Launcher) : list Obs := List.filter isSignal (log l).

Definition isCallStart (e : Event) : bool :=
  match e with CallStart => true | _ => false end.


(** How often a schedule calls [start()]. *)
Definition startCalls (schedule : list Event) : nat :=
  length (List.filter isCallStart schedule).

(** In a log (newest first), every spawn of the wallet process has the
    confirmed spawn of the node process before it, and every run of
    [walletExe] has the node's description before it. *)
Fixpoint nodeFirst (lg : list Obs) : Prop :=
  match lg with
  | [] => True
  | o :: older =>
      match o with
      | ObsSpawn Wallet _ => In (ObsSpawn Node true) older
      | ObsWalletCommand => In ObsNodeCommand older
      | _ => True
      end /\ nodeFirst older
  end.

(** The log entries of the signals sent by one call, the newest first. *)
Definition signalObs (w : Who) (sent : list Signal) : list Obs :=
  rev (List.map (ObsSignal w) sent).

Definition set_log (v : list Obs) (l : Launcher) : Launcher :=
  {| config := config l; start_node := start_node l; start_wallet := start_wallet l;
     walletService := walletService l; nodeService := nodeService l;
     apiPort := apiPort l; exited := exited l; starts := starts l;
     pollers := pollers l; stops := stops l; log := v |}.

(** ** Example configurations and schedules *)

Definition nodeCommand : StartService :=
  {| command := "cardano-node"; args := [Lit "run"]; extraEnv := None;
     supportsCleanShutdown := false |}.

Definition shelleyTestnet : Config.LaunchConfig :=
  {| Config.stateDir := "/tmp/state-launcher";
     Config.networkName := "testnet";
     Config.apiPort := None;
     Config.listenAddress := None;
     Config.stakePoolRegistryUrl := None;
     Config.syncToleranceSeconds := None;
     Config.nodeConfig := Config.shelley;
     Config.installSignalHandlers := None |}.


(** The wallet is told to pick its port itself: the launcher's [apiPort]
    stays 0. *)
Definition shelleyPortZero : Config.LaunchConfig :=
  {| Config.stateDir := "/tmp/state-launcher";
     Config.networkName := "testnet";
     Config.apiPort := Some 0%Z;
     Config.listenAddress := Some "0.0.0.0";
     Config.stakePoolRegistryUrl := None;
     Config.syncToleranceSeconds := None;
     Config.nodeConfig := Config.shelley;
     Config.installSignalHandlers := None |}.

(** The wallet is told to listen on every address. *)
Definition shelleyPublic : Config.LaunchConfig :=
  {| Config.stateDir := "/tmp/state-launcher";
     Config.networkName := "testnet";
     Config.apiPort := None;
     Config.listenAddress := Some "0.0.0.0";
     Config.stakePoolRegistryUrl := None;
     Config.syncToleranceSeconds := None;
     Config.nodeConfig := Config.shelley;
     Config.installSignalHandlers := None |}.

(** The state right after the constructor. *)
Definition fresh (config : Config.LaunchConfig) : Launcher :=
  {| config := config; start_node := Pending; start_wallet := Pending;
     walletService := setupService; nodeService := setupService;
     apiPort := 0; exited := false; starts := []; pollers := [];
     stops := []; log := [] |}.

(** Both descriptions are computed ([getPort()] answers [freePort]), then
    one call of [start()] brings up the node and the wallet and waits. *)
Definition startUp (freePort : Z) : list Event :=
  [NodeCommand (Normal nodeCommand); WalletCommand freePort; CallStart;
   Spawned Node; ResumeStart 0; Spawned Wallet; ResumeStart 0].

(** After the start-up the port accepts a connection; then [stop()] is
    called four times at once, both processes exit, and the four calls
    (and the two that the listeners made) settle. *)
Definition fourStops : list Event :=
  startUp 8090 ++
  [PollTick 0; SocketConnected 0;
   CallStop 10; CallStop 10; CallStop 10; CallStop 10;
   ProcessExited Wallet (ExitCode 0); ProcessExited Node (ExitSignal "SIGKILL");
   StopSettled 0; StopSettled 1; StopSettled 2; StopSettled 3;
   StopSettled 4; StopSettled 5].

(** [start()] is called twice; each call has its own poller, and both
    pollers get their connection. *)
Definition twoStarts : list Event :=
  startUp 8090 ++
  [CallStart; ResumeStart 1; ResumeStart 1;
   PollTick 0; PollTick 1; SocketConnected 0; SocketConnected 1].

(** After the start-up the node exits with code 1 before the port accepts
    a connection; the listener stops the wallet, which exits with code 0, and
    the call of [stop()] that the listener made settles. *)
Definition nodeDies : list Event :=
  startUp 8090 ++
  [PollTick 0; ProcessExited Node (ExitCode 1); PollTick 0;
   ProcessExited Wallet (ExitCode 0); StopSettled 0].

(** The start-up, then the exit of the node, then that of the wallet, and the
    [then] of the listener's call of [stop()]: the run that ends in
    [afterBothExits]. *)
Definition nodeDies' : list Event :=
  startUp 8090 ++
  [ProcessExited Node (ExitCode 1); ProcessExited Wallet (ExitCode 0); StopSettled 0].

(** [start()] is called, both descriptions are computed, and only then the
    node process is spawned. *)
Definition descriptionsFirst : list Event :=
  [CallStart; NodeCommand (Normal nodeCommand); WalletCommand 8090; Spawned Node].

(** The state in which the one call of [start()] waits; then the node has
    exited with code 1; then the wallet has exited too and the listener's
    call of [stop()] has settled. *)
Definition waiting : Launcher :=
  Eval vm_compute in
    default (fresh shelleyTestnet)
      (run formatMessage (startUp 8090) (fresh shelleyTestnet)).

Definition afterNodeExit : Launcher :=
  Eval vm_compute in
    default waiting (step formatMessage (ProcessExited Node (ExitCode 1)) waiting).

Definition afterBothExits : Launcher :=
  Eval vm_compute in
    default afterNodeExit
      (run formatMessage [ProcessExited Wallet (ExitCode 0); StopSettled 0]
         afterNodeExit).

(** A launcher whose wallet listens on every address, when the node's
    description is there, and then when [walletExe] has run with the free
    port 8090. *)
Definition publicWithNode : Launcher :=
  Eval vm_compute in
    default (fresh shelleyPublic)
      (step formatMessage (NodeCommand (Normal nodeCommand)) (fresh shelleyPublic)).

Definition publicWithWallet : Launcher :=
  Eval vm_compute in
    default publicWithNode (step formatMessage (WalletCommand 8090) publicWithNode).

(** A self-node of Jormungandr with a REST port. *)
Definition jormungandrSelf : Config.LaunchConfig :=
  {| Config.stateDir := "/tmp/state-launcher";
     Config.networkName := "self";
     Config.apiPort := None;
     Config.listenAddress := None;
     Config.stakePoolRegistryUrl := Some "http://localhost/registry.zip";
     Config.syncToleranceSeconds := None;
     Config.nodeConfig :=
       Config.jormungandr {| Config.restPort := Some 8888%Z;
                             Config.genesisBlockHash := "f8c0622e" |};
     Config.installSignalHandlers := Some false |}.

(** The end of the run [fourStops], and of the run [twoStarts]. *)
Definition afterFourStops : Launcher :=
  Eval vm_compute in
    default (fresh shelleyTestnet)
      (run formatMessage fourStops (fresh shelleyTestnet)).

Definition afterTwoStarts : Launcher :=
  Eval vm_compute in
    default (fresh shelleyTestnet)
      (run formatMessage twoStarts (fresh shelleyTestnet)).

(** ** Invariants of the event loop *)

(** The flag [exited] and the number of exit notifications: the flag is set
    exactly when the notification was emitted, which was then once, and
    before that no call of [stop()] has returned. *)
Definition exit_gate (l : Launcher) : Prop :=
  if exited l then exitCount l = 1
  else exitCount l = 0 /\ forall k st, stops l !! k = Some (Some st) -> False.

(** Every call of [stop()] that has returned did so when both services were
    stopped, with their two exit statuses. *)
Definition stops_final (l : Launcher) : Prop :=
  forall k st, stops l !! k = Some (Some st) ->
    getStatus (walletService l) = Stopped /\
    getStatus (nodeService l) = Stopped /\
    exists wallet node,
      exitStatus (walletService l) = Some wallet /\
      exitStatus (nodeService l) = Some node /\
      st = [("wallet", wallet); ("node", node)].

(** The wallet service is started only when the node process was spawned,
    and the log keeps the order: the node first. *)
Definition node_first (l : Launcher) : Prop :=
  (startCalled (walletService l) = true -> spawned (nodeService l) = true) /\
  (spawned (nodeService l) = true -> In (ObsSpawn Node true) (log l)) /\
  (description Node l <> None -> In ObsNodeCommand (log l)) /\
  nodeFirst (log l).

(** A call of [start()] that has passed both of its [await]s, and so has
    called [waitForApi]. *)
Definition pastAwaits (c : StartCall) : bool :=
  match c with
  | AwaitNodeStart | AwaitWalletStart => false
  | _ => true
  end.

Definition isFulfilled {A} (p : Promise A) : bool :=
  match p with Fulfilled _ => true | _ => false end.

(** Each ready notification comes from one poller whose promise it
    fulfilled, and each poller from one call of [start()]. *)
Definition ready_per_start (l : Launcher) : Prop :=
  readyCount l = length (List.filter (fun p => isFulfilled (outcome p)) (pollers l)) /\
  length (pollers l) = length (List.filter pastAwaits (starts l)).

(** An interval timer that is still set belongs to a pending promise. *)
Definition timers_pending (l : Launcher) : Prop :=
  forall j p, pollers l !! j = Some p -> timer p = true -> outcome p = Pending.

(** A settled call of [start()]: fulfilled or rejected. *)
Definition isSettled (c : StartCall) : bool :=
  match c with
  | StartFulfilled _ | StartRejected _ => true
  | _ => false
  end.

(** What a call of [start()] was settled with, given the one-line message
    of a service: the parameters of a ready notification, or the
    [BackendExitedError] of the status of an exit notification, which
    [stop()] has built from the exit statuses of the wallet and of the
    node. *)
Definition settled_by (serviceExitStatusMessage : ServiceExitStatus -> string)
    (lg : list Obs) (c : StartCall) : Prop :=
  match c with
  | StartFulfilled api =>
      In (ObsEmit (Ready api)) lg /\ exists p, api = V2Api p
  | StartRejected e =>
      exists wallet node,
        e = BackendExitedError serviceExitStatusMessage
              [("wallet", wallet); ("node", node)] /\
        In (ObsEmit (Exit [("wallet", wallet); ("node", node)])) lg
  | _ => True
  end.

Definition starts_settled (serviceExitStatusMessage : ServiceExitStatus -> string)
    (l : Launcher) : Prop :=
  forall i c, starts l !! i = Some c ->
    settled_by serviceExitStatusMessage (log l) c.





(** The same configuration for another backend. *)
Definition withNodeConfig (n : Config.NodeConfig) (c : Config.LaunchConfig)
    : Config.LaunchConfig :=
  {| Config.stateDir := Config.stateDir c;
     Config.networkName := Config.networkName c;
     Config.apiPort := Config.apiPort c;
     Config.listenAddress := Config.listenAddress c;
     Config.stakePoolRegistryUrl := Config.stakePoolRegistryUrl c;
     Config.syncToleranceSeconds := Config.syncToleranceSeconds c;
     Config.nodeConfig := n;
     Config.installSignalHandlers := Config.installSignalHandlers c |}.

(** Byron on mainnet with a node socket. *)
Definition byronMainnet : Config.LaunchConfig :=
  {| Config.stateDir := "/tmp/state-launcher";
     Config.networkName := "mainnet";
     Config.apiPort := Some 8090%Z;
     Config.listenAddress := None;
     Config.stakePoolRegistryUrl := None;
     Config.syncToleranceSeconds := Some 300%Z;
     Config.nodeConfig :=
       Config.byron {| Config.network := {| Config.genesisFile := None |};
                       Config.socketFile := Some "/tmp/node.socket" |};
     Config.installSignalHandlers := None |}.

(** The two descriptions are settled one after the other, and the port is
    recorded with the wallet's: [start.wallet] is pending as long as
    [start.node] is, and [apiPort] is 0 until [start.wallet] is fulfilled and
    the port of that description from then on. *)
Definition port_recorded (l : Launcher) : Prop :=
  (start_node l = Pending -> start_wallet l = Pending) /\
  (forall d, start_wallet l = Fulfilled d -> apiPort l = WalletStartService.apiPort d) /\
  ((forall d, start_wallet l <> Fulfilled d) -> apiPort l = 0%Z).

(** Connection attempts go to the recorded port, which is then not 0; a
    socket is open only after an attempt; and a ready notification carries
    the parameters of the recorded port, after an attempt. *)
Definition polls_recorded_port (l : Launcher) : Prop :=
  (forall p, In (ObsConnect p) (log l) -> p <> 0%Z /\ p = apiPort l) /\
  (forall j q, pollers l !! j = Some q -> 0 < sockets q ->
     In (ObsConnect (apiPort l)) (log l)) /\
  (forall api, In (ObsEmit (Ready api)) (log l) ->
     api = V2Api (apiPort l) /\ In (ObsConnect (apiPort l)) (log l)).


(** An exit status with neither a code nor a signal, as that of a process
    that could not be spawned. *)
Definition silent (s : ServiceExitStatus) : bool :=
  is_undefined (code s) && is_undefined (signal s).

(** [waitForApi] is called only when both processes were spawned: a
    spawned process is in the log, the wallet service is started only when
    the node was spawned, and there is a poller only when the wallet was
    spawned. *)
Definition polls_after_spawns (l : Launcher) : Prop :=
  (spawned (nodeService l) = true -> In (ObsSpawn Node true) (log l)) /\
  (spawned (walletService l) = true -> In (ObsSpawn Wallet true) (log l)) /\
  (startCalled (walletService l) = true -> spawned (nodeService l) = true) /\
  (spawned (walletService l) = true -> startCalled (walletService l) = true) /\
  (pollers l <> [] -> spawned (walletService l) = true).

(** Every exit notification in the log carries the exit statuses of the two
    services, which are stopped. *)
Definition exit_is_final (l : Launcher) : Prop :=
  forall st, In (ObsEmit (Exit st)) (log l) ->
    getStatus (walletService l) = Stopped /\
    getStatus (nodeService l) = Stopped /\
    exists wallet node,
      exitStatus (walletService l) = Some wallet /\
      exitStatus (nodeService l) = Some node /\
      st = [("wallet", wallet); ("node", node)].

(** Every exit notification in the log carries a status that a call of
    [stop()] has returned. *)
Definition exit_was_returned (l : Launcher) : Prop :=
  forall st, In (ObsEmit (Exit st)) (log l) ->
    exists k, stops l !! k = Some (Some st).


(** * Properties *)

(** ** The exit aggregator of the command line *)

Lemma fold_code_some (statuses : list ServiceExitStatus) (c : Z) :
  fold_left (fun (res : option Z) status =>
               match res with None => code status | Some _ => res end)
            statuses (Some c) = Some c.
Proof. induction statuses as [|s rest IH]; [reflexivity | exact IH]. Qed.

Lemma fold_code_first (statuses : list ServiceExitStatus) :
  fold_left (fun (res : option Z) status =>
               match res with None => code status | Some _ => res end)
            statuses None = firstCode statuses.
Proof.
  induction statuses as [|s rest IH]; [reflexivity |].
  cbn [fold_left firstCode]. destruct (code s) as [c|].
  - apply fold_code_some.
  - exact IH.
Qed.

Lemma fold_signal_some (statuses : list ServiceExitStatus) (sg : string) :
  fold_left (fun (res : option string) status =>
               match res with None => signal status | Some _ => res end)
            statuses (Some sg) = Some sg.
Proof. induction statuses as [|s rest IH]; [reflexivity | exact IH]. Qed.

Lemma fold_signal_any (statuses : list ServiceExitStatus) :
  is_undefined
    (fold_left (fun (res : option string) status =>
                  match res with None => signal status | Some _ => res end)
               statuses None) = negb (anySignal statuses).
Proof.
  induction statuses as [|s rest IH]; [reflexivity |].
  cbn [fold_left anySignal existsb]. destruct (signal s) as [sg|].
  - now rewrite fold_signal_some.
  - exact IH.
Qed.

(** C3. [combineStatus] returns the first code that is not null, in list
    order (a code 0 included); when every code is null it returns 127 if
    some entry has a signal that is not null, and 0 otherwise.  The four
    examples of the specification evaluate to 0, 1, 127 and 0. *)
Theorem combineStatus_first_code :
  (forall statuses : list ServiceExitStatus,
      combineStatus statuses =
      match firstCode statuses with
      | Some c => c
      | None => if anySignal statuses then 127%Z else 0%Z
      end)
  /\ combineStatus [exited_with (Some 0%Z) None; exited_with (Some 1%Z) None] = 0%Z
  /\ combineStatus [exited_with None None; exited_with (Some 1%Z) None] = 1%Z
  /\ combineStatus [exited_with None (Some "KILL"); exited_with None None] = 127%Z
  /\ combineStatus [exited_with None None; exited_with None None] = 0%Z.
Proof.
  split; [| repeat split; reflexivity].
  intros statuses. unfold combineStatus.
  rewrite fold_code_first. destruct (firstCode statuses) as [c|]; [reflexivity |].
  pose proof (fold_signal_any statuses) as Hs.
  destruct (fold_left _ statuses None), (anySignal statuses); cbn in Hs;
    congruence.
Qed.

(** ** What a call of [Service.stop] does *)

Lemma Service_stop_status t s :
  getStatus (fst (Service_stop t s)) =
  match getStatus s with Started => Stopping | st => st end.
Proof. unfold Service_stop. repeat case_match; cbn; congruence. Qed.

Lemma Service_stop_exitStatus t s :
  exitStatus (fst (Service_stop t s)) = exitStatus s.
Proof. unfold Service_stop. repeat case_match; reflexivity. Qed.

Lemma Service_stop_spawned t s :
  spawned (fst (Service_stop t s)) = spawned s.
Proof. unfold Service_stop. repeat case_match; reflexivity. Qed.

Lemma Service_stop_startCalled t s :
  startCalled (fst (Service_stop t s)) = startCalled s.
Proof. unfold Service_stop. repeat case_match; reflexivity. Qed.

Lemma Service_stop_getConfig t s :
  getConfig (fst (Service_stop t s)) = getConfig s.
Proof. unfold Service_stop. repeat case_match; reflexivity. Qed.

(** A stopped service, and one that was not started, is left as it is and
    gets no signal. *)
Lemma Service_stop_Stopped t s :
  getStatus s = Stopped -> Service_stop t s = (s, []).
Proof. unfold Service_stop. intros ->. reflexivity. Qed.

Lemma Service_stop_Starting t s :
  getStatus s = Starting -> Service_stop t s = (s, []).
Proof. unfold Service_stop. intros ->. reflexivity. Qed.

(** Every call sends at most one signal. *)
Lemma Service_stop_sent t s :
  snd (Service_stop t s) = [] \/ exists sg, snd (Service_stop t s) = [sg].
Proof. unfold Service_stop. repeat case_match; cbn; eauto. Qed.

(** [stopService] written as an update of the service and of the log. *)
Lemma stopService_eq w t l :
  stopService w t l =
  set_log (signalObs w (snd (Service_stop t (service w l))) ++ log l)
          (set_service w (fst (Service_stop t (service w l))) l).
Proof.
  unfold stopService.
  destruct (Service_stop_sent t (service w l)) as [H | [sg H]];
    destruct (Service_stop t (service w l)) as [s sent]; cbn in H; subst sent;
    destruct w, l; reflexivity.
Qed.

Lemma filter_signalObs (f : Obs -> bool) w sent lg :
  (forall sg, f (ObsSignal w sg) = false) ->
  List.filter f (signalObs w sent ++ lg) = List.filter f lg.
Proof.
  intros Hf. unfold signalObs. rewrite List.filter_app.
  replace (List.filter f (rev (List.map (ObsSignal w) sent))) with (@nil Obs);
    [reflexivity |].
  symmetry. induction sent as [|sg sent IH]; [reflexivity |].
  cbn. rewrite List.filter_app, IH. cbn. now rewrite Hf.
Qed.

Lemma In_signalObs o w sent lg :
  isSignal o = false -> In o (signalObs w sent ++ lg) <-> In o lg.
Proof.
  intros Ho. rewrite in_app_iff. unfold signalObs. rewrite <- in_rev, in_map_iff.
  split; [| tauto]. intros [(sg & <- & _) | H]; [discriminate Ho | exact H].
Qed.

Lemma nodeFirst_signalObs w sent lg :
  nodeFirst (signalObs w sent ++ lg) <-> nodeFirst lg.
Proof.
  unfold signalObs. induction sent as [|sg sent IH] using rev_ind; [reflexivity |].
  rewrite List.map_app, rev_app_distr. cbn. tauto.
Qed.


(** ** Turns of the event loop, case by case *)

(** Splits [H : step f e l = Some l'] into the turns that can happen, each
    with the new state written as updates of [l]. *)
Ltac step_cases H :=
  match type of H with
  | step _ ?e _ = Some _ =>
      destruct e; cbn [step] in H; simplify_option_eq;
      repeat case_match; simplify_eq;
      unfold Launcher_start, Launcher_stop, onStatusChanged, onTerminationSignal,
        start_after_node, start_after_wallet, nodeCommandSettled,
        walletCommandSettled, poll, connected, connectFailed, stop_then,
        emitReady, emitExit in *;
      rewrite ?stopService_eq in *;
      repeat case_match; simplify_eq
  end.

Ltac by_who :=
  repeat match goal with w : Who |- _ => destruct w end.

Section Properties.

Variable serviceExitStatusMessage : ServiceExitStatus -> string.

Abbreviation step := (step serviceExitStatusMessage).
Abbreviation run := (run serviceExitStatusMessage).

Lemma run_app (s1 s2 : list Event) (l : Launcher) :
  run (s1 ++ s2) l = run s1 l ≫= run s2.
Proof.
  revert l. induction s1 as [|e s1 IH]; intros l; [reflexivity |].
  cbn. destruct (step e l); [apply IH | reflexivity].
Qed.

(** A property that holds after the constructor and that every turn keeps
    holds after every schedule. *)
Lemma run_invariant (P : Launcher -> Prop) :
  (forall e l l', step e l = Some l' -> P l -> P l') ->
  forall schedule l l', run schedule l = Some l' -> P l -> P l'.
Proof.
  intros Hstep schedule. induction schedule as [|e rest IH]; intros l l' Hr Hl.
  - cbn in Hr. congruence.
  - cbn in Hr. destruct (step e l) as [l1|] eqn:He; [| discriminate].
    eapply IH; eauto.
Qed.

(** *** The one-shot gate of the exit notification *)

Lemma lookup_snoc_Some {A} (xs : list A) (x y : A) (k : nat) :
  (xs ++ [x]) !! k = Some y -> xs !! k = Some y \/ y = x.
Proof.
  intros H. apply lookup_app_Some in H as [H | [_ H]]; [tauto |].
  right. destruct (k - length xs)%nat as [|n]; cbn in H; [congruence |].
  destruct n; discriminate H.
Qed.

Lemma step_exit_gate e l l' :
  step e l = Some l' -> exit_gate l -> exit_gate l'.
Proof.
  unfold exit_gate, exitCount. intros Hs Hg.
  step_cases Hs; by_who; cbn in *;
    rewrite ?filter_signalObs by reflexivity;
    try congruence; try tauto; try (cbn; lia).
  all: try (destruct Hg as [Hg Hk]; split; [assumption |];
            intros k' st' Hl; apply lookup_snoc_Some in Hl as [Hl | Hl];
            [eauto | discriminate]).
  all: destruct (exited l); cbn in *; discriminate.
Qed.

Lemma exit_gate_fresh config : exit_gate (fresh config).
Proof. split; [reflexivity |]. intros k st H. destruct k; discriminate H. Qed.

Lemma Launcher_new_fresh config l0 :
  Launcher_new config = Normal l0 -> l0 = fresh config.
Proof.
  unfold Launcher_new, makeServiceCommands, fresh. intros [= <-]. reflexivity.
Qed.

(** C1. Along every schedule of one Launcher instance, with any number
    of calls of [stop()] in any interleaving, the exit notification is
    emitted at most once; and once some call of [stop()] has returned, it
    was emitted exactly once. *)
Theorem exit_fires_at_most_once config l0 schedule l :
  Launcher_new config = Normal l0 ->
  run schedule l0 = Some l ->
  exitCount l <= 1 /\
  ((exists k st, stops l !! k = Some (Some st)) -> exitCount l = 1).
Proof.
  intros Hnew Hrun. apply Launcher_new_fresh in Hnew as ->.
  assert (Hg : exit_gate l).
  { eapply run_invariant; [apply step_exit_gate | exact Hrun | apply exit_gate_fresh]. }
  unfold exit_gate in Hg. destruct (exited l).
  - split; [lia | intros _; exact Hg].
  - destruct Hg as [Hz Hk]. split; [lia |]. intros (k & st & Hl). destruct (Hk k st Hl).
Qed.

(** *** Stopped is final *)

Ltac service_cases :=
  unfold Service_exited, Service_spawned, Service_spawnFailed,
    Service_killTimer in *;
  repeat case_match; simplify_eq.

(** A stopped service stays stopped and keeps its exit status. *)
Lemma step_Stopped_service e l l' w :
  step e l = Some l' ->
  getStatus (service w l) = Stopped ->
  getStatus (service w l') = Stopped /\
  exitStatus (service w l') = exitStatus (service w l).
Proof.
  intros Hs Hw.
  step_cases Hs; by_who; cbn in *; service_cases;
    rewrite ?(Service_stop_Stopped _ _ Hw); cbn;
    rewrite ?Service_stop_status, ?Service_stop_exitStatus; cbn;
    try (split; [assumption | reflexivity]); try congruence.
Qed.

(** When both services are stopped no turn sends a signal. *)
Lemma step_Stopped_signals e l l' :
  step e l = Some l' ->
  getStatus (walletService l) = Stopped ->
  getStatus (nodeService l) = Stopped ->
  signalsSent l' = signalsSent l.
Proof.
  unfold signalsSent. intros Hs Hw Hn.
  step_cases Hs; by_who; cbn in *; service_cases;
    rewrite ?(Service_stop_Stopped _ _ Hw), ?(Service_stop_Stopped _ _ Hn); cbn;
    try reflexivity; try congruence.
Qed.

(** A call of [stop()] that has returned after a turn had returned before
    it, or the turn was its [then], with both services stopped. *)
Lemma step_stops e l l' k st :
  step e l = Some l' ->
  stops l' !! k = Some (Some st) ->
  stops l !! k = Some (Some st) \/
  (getStatus (walletService l) = Stopped /\
   getStatus (nodeService l) = Stopped /\
   exists wallet node,
     exitStatus (walletService l) = Some wallet /\
     exitStatus (nodeService l) = Some node /\
     st = [("wallet", wallet); ("node", node)]).
Proof.
  intros Hs Hl.
  step_cases Hs; by_who; cbn in *; try (left; assumption);
    try (apply lookup_snoc_Some in Hl as [Hl | Hl]; [left; assumption | discriminate]).
  all: apply list_lookup_insert_Some in Hl as [(-> & Hl & _) | [_ Hl]];
    [right; simplify_eq; eauto 10 | left; assumption].
Qed.

Lemma step_stops_final e l l' :
  step e l = Some l' -> stops_final l -> stops_final l'.
Proof.
  intros Hs Hinv k st Hl.
  assert (Hold : getStatus (walletService l) = Stopped /\
                 getStatus (nodeService l) = Stopped /\
                 exists wallet node,
                   exitStatus (walletService l) = Some wallet /\
                   exitStatus (nodeService l) = Some node /\
                   st = [("wallet", wallet); ("node", node)]).
  { destruct (step_stops _ _ _ _ _ Hs Hl) as [H | H]; [exact (Hinv _ _ H) | exact H]. }
  destruct Hold as (Hw & Hn & wallet & node & Hew & Hen & ->).
  destruct (step_Stopped_service _ _ _ Wallet Hs Hw) as [Hw' Hew'].
  destruct (step_Stopped_service _ _ _ Node Hs Hn) as [Hn' Hen'].
  cbn in *. repeat split; try assumption.
  exists wallet, node. repeat split; congruence.
Qed.

Lemma stops_final_fresh config : stops_final (fresh config).
Proof. intros k st H. destruct k; discriminate H. Qed.

(** C5. Once a call of [stop()] has returned, the turns that follow send
    no termination signal to the wallet or to the node, whatever calls of
    [stop()] they make, and every call of [stop()] that has returned, then
    or later, has returned the same exit status. *)
Theorem stop_returns_the_same_status config l0 before after l l' k st :
  Launcher_new config = Normal l0 ->
  run before l0 = Some l ->
  stops l !! k = Some (Some st) ->
  run after l = Some l' ->
  signalsSent l' = signalsSent l /\
  forall k' st', stops l' !! k' = Some (Some st') -> st' = st.
Proof.
  intros Hnew Hb Hk Ha. apply Launcher_new_fresh in Hnew as ->.
  assert (Hfin : stops_final l).
  { eapply run_invariant; [apply step_stops_final | exact Hb | apply stops_final_fresh]. }
  destruct (Hfin _ _ Hk) as (Hw & Hn & wallet & node & Hew & Hen & ->).
  clear Hb Hk.
  revert l Hfin Hw Hn Hew Hen Ha.
  induction after as [|e rest IH]; intros l Hfin Hw Hn Hew Hen Ha.
  - cbn in Ha. simplify_eq. split; [reflexivity |].
    intros k' st' Hk'. destruct (Hfin _ _ Hk') as (_ & _ & w' & n' & ? & ? & ->).
    congruence.
  - cbn in Ha. destruct (step e l) as [l1|] eqn:He; [| discriminate].
    destruct (step_Stopped_service _ _ _ Wallet He Hw) as [Hw1 Hew1].
    destruct (step_Stopped_service _ _ _ Node He Hn) as [Hn1 Hen1].
    cbn in *.
    rewrite <- (step_Stopped_signals _ _ _ He Hw Hn).
    apply IH; try assumption; try congruence.
    eapply step_stops_final; eauto.
Qed.

(** *** The node comes first *)

Lemma step_node_first e l l' :
  step e l = Some l' -> node_first l -> node_first l'.
Proof.
  unfold node_first. intros Hs (Hcall & Hspawn & Hcmd & Hlog).
  step_cases Hs; by_who; cbn in *; service_cases; cbn in *;
    rewrite ?Service_stop_startCalled, ?Service_stop_spawned in *; cbn in *;
    rewrite ?Service_stop_startCalled, ?Service_stop_spawned in *;
    rewrite ?nodeFirst_signalObs, ?In_signalObs by reflexivity;
    cbn in *;
    rewrite ?nodeFirst_signalObs, ?In_signalObs by reflexivity;
    try (repeat split; first [assumption | tauto | congruence | intuition congruence]).
  all: repeat match goal with
              | H : _ && _ = true |- _ => apply andb_prop in H as [? ?]
              | H : negb _ = true |- _ => apply negb_true_iff in H
              end;
    intuition congruence.
Qed.

Lemma node_first_fresh config : node_first (fresh config).
Proof. cbv [node_first fresh]. cbn. intuition congruence. Qed.

Lemma nodeFirst_split newer o older :
  nodeFirst (newer ++ o :: older) ->
  (isWalletSpawn o = true -> In (ObsSpawn Node true) older) /\
  (o = ObsWalletCommand -> In ObsNodeCommand older).
Proof.
  induction newer as [|x newer IH]; cbn.
  - intros [Ho _]. split.
    + destruct o as [| |[] ?| | |]; cbn; try discriminate. intros _. exact Ho.
    + intros ->. exact Ho.
  - intros [_ H]. exact (IH H).
Qed.

(** C6, as the code has it. Along every schedule, whatever is in the
    log after a spawn of the wallet process (confirmed or failed) contains
    the confirmed spawn of the node process; and whatever is in the log
    after a run of [walletExe], which computes the wallet's description,
    contains the computation of the node's description. *)
Theorem node_spawn_before_wallet_spawn config l0 schedule l newer o older :
  Launcher_new config = Normal l0 ->
  run schedule l0 = Some l ->
  log l = newer ++ o :: older ->
  (isWalletSpawn o = true -> In (ObsSpawn Node true) older) /\
  (o = ObsWalletCommand -> In ObsNodeCommand older).
Proof.
  intros Hnew Hrun Hlog. apply Launcher_new_fresh in Hnew as ->.
  assert (Hinv : node_first l).
  { eapply run_invariant; [apply step_node_first | exact Hrun | apply node_first_fresh]. }
  destruct Hinv as (_ & _ & _ & Hinv). rewrite Hlog in Hinv.
  exact (nodeFirst_split _ _ _ Hinv).
Qed.

(** *** Lists of calls *)

Lemma lookup_map {A B} (f : A -> B) (xs : list A) (i : nat) :
  List.map f xs !! i = f <$> xs !! i.
Proof.
  revert i. induction xs as [|x xs IH]; intros [|i]; cbn; auto.
Qed.

Lemma filter_length_insert {A} (f : A -> bool) (xs : list A) (j : nat) (x y : A) :
  xs !! j = Some x ->
  length (List.filter f (<[j := y]> xs)) + (if f x then 1 else 0) =
  length (List.filter f xs) + (if f y then 1 else 0).
Proof.
  revert j. induction xs as [|a xs IH]; intros [|j] H; simpl in *; try discriminate.
  - simplify_eq. destruct (f x), (f y); simpl; lia.
  - specialize (IH _ H). destruct (f a); simpl; lia.
Qed.

Lemma filter_length_snoc {A} (f : A -> bool) (xs : list A) (x : A) :
  length (List.filter f (xs ++ [x])) =
  length (List.filter f xs) + (if f x then 1 else 0).
Proof.
  rewrite List.filter_app, length_app. cbn. destruct (f x); reflexivity.
Qed.

Lemma filter_map_same {A} (f : A -> bool) (g : A -> A) (xs : list A) :
  (forall x, f (g x) = f x) ->
  List.filter f (List.map g xs) = List.map g (List.filter f xs).
Proof.
  intros H. induction xs as [|x xs IH]; cbn; [reflexivity |].
  rewrite H. destruct (f x); cbn; congruence.
Qed.

Lemma isFulfilled_settle_Rejected {A} (e : JsError) (p : Promise A) :
  isFulfilled (settle (Rejected e) p) = isFulfilled p.
Proof. destruct p; reflexivity. Qed.

(** Names the number of entries that pass a filter after an update at an
    index, and relates it to the number before. *)
Ltac count_insert :=
  repeat match goal with
         | Hj : ?xs !! ?j = Some ?x
           |- context [length (List.filter ?f (<[?j := ?y]> ?xs))] =>
             let E := fresh "E" in
             let n := fresh "n" in
             pose proof (filter_length_insert f xs j x y Hj) as E;
             set (n := length (List.filter f (<[j := y]> xs))) in *;
             clearbody n; cbn in E;
             rewrite ?isFulfilled_settle_Rejected in E
         end.

(** *** One ready notification for each poller that connects *)

Lemma step_ready_per_start e l l' :
  step e l = Some l' -> ready_per_start l -> ready_per_start l'.
Proof.
  unfold ready_per_start, readyCount. intros Hs [Hr Hp].
  step_cases Hs; by_who; cbn in *;
    rewrite ?filter_signalObs by reflexivity;
    rewrite ?filter_length_snoc; cbn;
    try (split; [assumption | lia]); try (split; assumption).
  all: rewrite ?filter_map_same by (intros []; reflexivity);
    rewrite ?length_map, ?length_insert, ?length_app; cbn.
  all: count_insert.
  all: repeat match goal with
           | H : outcome ?p = _, E : context [isFulfilled (outcome ?p)] |- _ =>
               rewrite H in E
           end; cbn in *;
    try (split; lia).
  all: match goal with
       | |- context [isFulfilled (outcome ?p)] => destruct (isFulfilled (outcome p))
       | E : context [isFulfilled (outcome ?p)] |- _ => destruct (isFulfilled (outcome p))
       end; split; lia.
Qed.


Lemma ready_per_start_fresh config : ready_per_start (fresh config).
Proof. split; reflexivity. Qed.

Lemma step_starts_length e l l' :
  step e l = Some l' ->
  length (starts l') = length (starts l) + (if isCallStart e then 1 else 0).
Proof.
  intros Hs.
  step_cases Hs; by_who; cbn in *;
    rewrite ?length_map, ?length_insert, ?length_app; cbn; lia.
Qed.

Lemma run_starts_length schedule l l' :
  run schedule l = Some l' ->
  length (starts l') = length (starts l) + startCalls schedule.
Proof.
  unfold startCalls. revert l.
  induction schedule as [|e rest IH]; intros l Hr; cbn in Hr.
  - simplify_eq. cbn. lia.
  - destruct (step e l) as [l1|] eqn:He; [| discriminate].
    rewrite (IH _ Hr), (step_starts_length _ _ _ He). cbn.
    destruct (isCallStart e); cbn; lia.
Qed.

(** *** What a settled call of [start()] was settled with *)

(** The log only grows. *)
Lemma step_log_In e l l' o :
  step e l = Some l' -> In o (log l) -> In o (log l').
Proof.
  intros Hs Ho.
  step_cases Hs; by_who; cbn in *; rewrite ?in_app_iff; cbn; tauto.
Qed.

Lemma settled_by_In lg lg' c :
  (forall o, In o lg -> In o lg') ->
  settled_by serviceExitStatusMessage lg c ->
  settled_by serviceExitStatusMessage lg' c.
Proof.
  intros Hsub. destruct c; cbn; try tauto.
  - intros [H Hp]. split; [apply Hsub, H | exact Hp].
  - intros (wallet & node & -> & H). exists wallet, node.
    split; [reflexivity | apply Hsub, H].
Qed.

(** After a turn, a call of [start()] is as it was before, or the turn
    moved it on, or the turn settled it by the notification it emitted. *)
Lemma step_starts e l l' i c :
  step e l = Some l' ->
  starts l' !! i = Some c ->
  starts l !! i = Some c \/
  isSettled c = false \/
  (starts l !! i = Some AwaitReadyOrExit /\
   settled_by serviceExitStatusMessage (log l') c).
Proof.
  intros Hs Hc.
  step_cases Hs; by_who; cbn in *; try (left; assumption);
    try (apply lookup_snoc_Some in Hc as [Hc | ->]; [left; assumption | right; left; reflexivity]);
    try (apply list_lookup_insert_Some in Hc as [(-> & <- & _) | [_ Hc]];
         [right; left; reflexivity | left; assumption]).
  all: rewrite lookup_map in Hc;
    destruct (starts l !! i) as [c0|] eqn:E0; cbn in Hc; [| discriminate];
    destruct c0; simplify_eq; try (left; reflexivity);
    right; right; (split; [reflexivity |]); cbn; eauto 10.
Qed.

Lemma step_starts_settled e l l' :
  step e l = Some l' ->
  starts_settled serviceExitStatusMessage l ->
  starts_settled serviceExitStatusMessage l'.
Proof.
  intros Hs Hinv i c Hc.
  destruct (step_starts _ _ _ _ _ Hs Hc) as [H | [H | [_ H]]].
  - eapply settled_by_In; [| exact (Hinv _ _ H)].
    intros o. apply (step_log_In _ _ _ _ Hs).
  - destruct c; cbn in *; try discriminate; exact I.
  - exact H.
Qed.

Lemma starts_settled_fresh config : starts_settled serviceExitStatusMessage (fresh config).
Proof. intros i c H. destruct i; discriminate H. Qed.

Lemma message_of_two (wallet node : ServiceExitStatus) :
  exitStatusMessage serviceExitStatusMessage [("wallet", wallet); ("node", node)] =
  serviceExitStatusMessage wallet +:+ newline +:+ serviceExitStatusMessage node.
Proof. reflexivity. Qed.

(** C7. Along every schedule, a call of [start()] that was rejected was
    rejected with the [BackendExitedError] of the status that the exit
    notification carried: the error holds that status, the exit status
    of the wallet and the one of the node, and its message is the line of
    the wallet, a line feed, and the line of the node. *)
Theorem start_rejects_with_exit_status config l0 schedule l i e :
  Launcher_new config = Normal l0 ->
  run schedule l0 = Some l ->
  starts l !! i = Some (StartRejected e) ->
  exists wallet node,
    In (ObsEmit (Exit [("wallet", wallet); ("node", node)])) (log l) /\
    status e = Some [("wallet", wallet); ("node", node)] /\
    message e =
      serviceExitStatusMessage wallet +:+ newline +:+ serviceExitStatusMessage node.
Proof.
  intros Hnew Hrun Hi. apply Launcher_new_fresh in Hnew as ->.
  assert (Hinv : starts_settled serviceExitStatusMessage l).
  { eapply run_invariant;
      [apply step_starts_settled | exact Hrun | apply starts_settled_fresh]. }
  destruct (Hinv _ _ Hi) as (wallet & node & -> & Hin).
  exists wallet, node. split; [exact Hin |]. split; [reflexivity |].
  apply message_of_two.
Qed.

(** C9, as the code has it. Along every schedule, the ready notification
    is emitted at most as often as [start()] was called, so at most once
    when it was called once; and a call of [start()] that was fulfilled
    was fulfilled with the parameters that a ready notification carried,
    those of [V2Api] for some port. *)
Theorem ready_at_most_once_per_start config l0 schedule l :
  Launcher_new config = Normal l0 ->
  run schedule l0 = Some l ->
  readyCount l <= startCalls schedule /\
  forall i api, starts l !! i = Some (StartFulfilled api) ->
    In (ObsEmit (Ready api)) (log l) /\ exists p, api = V2Api p.
Proof.
  intros Hnew Hrun. apply Launcher_new_fresh in Hnew as ->. split.
  - assert (Hinv : ready_per_start l).
    { eapply run_invariant;
        [apply step_ready_per_start | exact Hrun | apply ready_per_start_fresh]. }
    destruct Hinv as [Hr Hp]. rewrite Hr.
    pose proof (run_starts_length _ _ _ Hrun) as Hlen. cbn in Hlen.
    pose proof (List.filter_length_le (fun p => isFulfilled (outcome p)) (pollers l)).
    pose proof (List.filter_length_le pastAwaits (starts l)).
    lia.
  - intros i api Hi.
    assert (Hinv : starts_settled serviceExitStatusMessage l).
    { eapply run_invariant;
        [apply step_starts_settled | exact Hrun | apply starts_settled_fresh]. }
    exact (Hinv _ _ Hi).
Qed.

(** *** The poller *)

Lemma step_timers_pending e l l' :
  step e l = Some l' -> timers_pending l -> timers_pending l'.
Proof.
  unfold timers_pending. intros Hs Hinv j' p' Hp' Ht'.
  step_cases Hs; by_who; cbn in *; eauto;
    try (apply lookup_snoc_Some in Hp' as [Hp' | ->]; [eauto | reflexivity]);
    try (apply list_lookup_insert_Some in Hp' as [(-> & <- & _) | [_ Hp']];
         cbn in *; [try discriminate; eauto | eauto]).
Qed.

Lemma timers_pending_fresh config : timers_pending (fresh config).
Proof. intros j p H. destruct j; discriminate H. Qed.

Lemma run_repeat_fixed e l n :
  step e l = Some l -> run (repeat e n) l = Some l.
Proof. intros H. induction n as [|n IH]; cbn; [reflexivity | now rewrite H]. Qed.

(** C8. In every state that a schedule reaches, for a poller whose
    timer is set while the port is 0: if the callback [stop] answers
    false, a tick leaves the whole state as it is, so it makes no
    connection attempt, the promise stays pending, the timer stays set,
    and any number of ticks does the same; if [stop] answers true, the tick
    clears the timer and rejects the promise with the error "Polling
    stopped", again without a connection attempt. *)
Theorem poll_skips_unknown_port config l0 schedule l j p :
  Launcher_new config = Normal l0 ->
  run schedule l0 = Some l ->
  pollers l !! j = Some p ->
  timer p = true ->
  apiPort l = 0%Z ->
  outcome p = Pending /\
  (stopWaiting l = false ->
     forall n, run (repeat (PollTick j) n) l = Some l) /\
  (stopWaiting l = true ->
     exists l',
       step (PollTick j) l = Some l' /\
       pollers l' !! j =
         Some {| timer := false;
                 outcome := Rejected (Error "Polling stopped");
                 sockets := sockets p |} /\
       log l' = log l).
Proof.
  intros Hnew Hrun Hp Ht Hport. apply Launcher_new_fresh in Hnew as ->.
  assert (Hinv : timers_pending l).
  { eapply run_invariant;
      [apply step_timers_pending | exact Hrun | apply timers_pending_fresh]. }
  pose proof (Hinv _ _ Hp Ht) as Hout. split; [exact Hout |]. split.
  - intros Hstop n. apply run_repeat_fixed.
    cbn. rewrite Hp. cbn. rewrite Ht. unfold poll. rewrite Hstop, Hport.
    reflexivity.
  - intros Hstop. eexists. split.
    + cbn. rewrite Hp. cbn. rewrite Ht. unfold poll. rewrite Hstop. reflexivity.
    + cbn. rewrite Hout. cbn. split; [| reflexivity].
      apply list_lookup_insert_eq. eapply lookup_lt_Some, Hp.
Qed.

(** *** The API parameters *)

Lemma walletExe_apiPort baseDir config freePort d :
  walletExe baseDir config freePort = Fulfilled d ->
  WalletStartService.apiPort d = default freePort (Config.apiPort config).
Proof.
  unfold walletExe, walletExe_body.
  destruct (Config.nodeConfig config); cbn; repeat case_match; cbn;
    intros Hd; simplify_eq; reflexivity.
Qed.

(** C10. In every state of a Launcher, whatever its configuration and
    the address it tells the wallet to listen on, [getApi] answers with
    the base URL "http://127.0.0.1:", the recorded port, "/v2/", and with
    the request parameters of that port, the path "/v2/" and the host name
    "127.0.0.1".  The recorded port changes in one turn only, the one that
    runs [walletExe], and becomes the configured [apiPort] or else the
    port that [getPort()] answered. *)
Theorem getApi_of_recorded_port :
  (forall l : Launcher,
      getApi l =
      {| baseUrl := "http://127.0.0.1:" +:+ numberToString (apiPort l) +:+ "/v2/";
         requestParams := {| port := apiPort l; path := "/v2/";
                             hostname := "127.0.0.1" |} |}) /\
  (forall e l l',
      step e l = Some l' ->
      apiPort l' <> apiPort l ->
      exists freePort,
        e = WalletCommand freePort /\
        apiPort l' = default freePort (Config.apiPort (config l))).
Proof.
  split; [reflexivity |].
  intros e l l' Hs Hne.
  step_cases Hs; by_who; cbn in *; try congruence.
  eexists. split; [reflexivity |]. eapply walletExe_apiPort. eassumption.
Qed.

(** *** A byron configuration without a genesis file *)






(** *** One process stops the other *)






(** ** Further properties of the code *)

(** *** [walletExe] *)


(** X2. The description that [walletExe] is fulfilled with names the
    program "cardano-wallet-" and the backend kind, supports the clean
    shutdown, holds as its port the configured [apiPort] or else the one
    [getPort()] answered, and starts its arguments with "serve",
    "--shutdown-handler", "--port", that same port, "--database" and the
    directory "wallets" under the base directory: the port the launcher
    polls is the port the wallet is told to serve. *)
Theorem walletExe_serves_recorded_port baseDir config freePort d :
  walletExe baseDir config freePort = Fulfilled d ->
  command (WalletStartService.service d) =
    "cardano-wallet-" +:+ Config.kind (Config.nodeConfig config) /\
  supportsCleanShutdown (WalletStartService.service d) = true /\
  WalletStartService.apiPort d = default freePort (Config.apiPort config) /\
  exists rest,
    args (WalletStartService.service d) =
    [Lit "serve"; Lit "--shutdown-handler"; Lit "--port";
     Lit (numberToString (WalletStartService.apiPort d)); Lit "--database";
     PathJoin baseDir "wallets"] ++ rest.
Proof.
  unfold walletExe, walletExe_body.
  destruct (Config.nodeConfig config); cbn; repeat case_match; cbn;
    intros Hd; simplify_eq; cbn; repeat split; eexists; reflexivity.
Qed.

(** X3. For the backend "byron", the arguments of the wallet are those
    it gets for "shelley" in the same configuration, then the network:
    "--mainnet" when the network name is "mainnet", and otherwise
    "--testnet" with the configured genesis file, which is then there;
    then "--node-socket" with the socket file when one is configured. *)
Theorem walletExe_byron_arguments baseDir config freePort c d :
  Config.nodeConfig config = Config.byron c ->
  walletExe baseDir config freePort = Fulfilled d ->
  exists d0 network,
    walletExe baseDir (withNodeConfig Config.shelley config) freePort = Fulfilled d0 /\
    (if String.eqb (Config.networkName config) "mainnet"
     then network = [Lit "--mainnet"]
     else exists g, Config.genesisFile (Config.network c) = Some g /\
                    network = [Lit "--testnet"; Lit g]) /\
    args (WalletStartService.service d) =
      args (WalletStartService.service d0) ++ network ++
      match Config.socketFile c with
      | Some f => [Lit "--node-socket"; Lit f]
      | None => []
      end.
Proof.
  intros Hk. unfold walletExe, walletExe_body. rewrite Hk. cbn.
  destruct (String.eqb (Config.networkName config) "mainnet") eqn:Hn; cbn.
  - intros Hd. simplify_eq. eexists _, _. split; [reflexivity |].
    split; [reflexivity |]. cbn. rewrite <- !app_assoc. reflexivity.
  - destruct (Config.genesisFile (Config.network c)) as [g|] eqn:Hg; cbn;
      intros Hd; simplify_eq.
    eexists _, _. split; [reflexivity |]. split; [eauto |].
    cbn. rewrite <- !app_assoc. reflexivity.
Qed.

(** *** The descriptions and the recorded port *)

Lemma step_port_recorded e l l' :
  step e l = Some l' -> port_recorded l -> port_recorded l'.
Proof.
  unfold port_recorded. intros Hs (Hchain & Hful & Hnot).
  step_cases Hs; by_who; cbn in *;
    try (split; [| split]; assumption).
  all: split; [intros; congruence |]; split; intros; simplify_eq;
    try reflexivity; try congruence.
  all: try (apply Hnot; intros d Hd; specialize (Hchain ltac:(assumption));
            congruence).
  all: try (apply Hful; assumption).
  all: try (apply Hnot; intros d' Hd'; congruence).
  apply Hnot. intros d' Hd'. specialize (Hchain eq_refl). congruence.
Qed.

Lemma port_recorded_fresh config : port_recorded (fresh config).
Proof. repeat split; intros; cbn in *; congruence. Qed.

(** A settled promise of the wallet's description stays as it is. *)
Lemma step_start_wallet_settled e l l' :
  step e l = Some l' ->
  port_recorded l ->
  start_wallet l <> Pending ->
  start_wallet l' = start_wallet l.
Proof.
  intros Hs (Hchain & _ & _) Hw.
  step_cases Hs; by_who; cbn in *; try reflexivity; try congruence.
  exfalso. apply Hw, Hchain. reflexivity.
Qed.

Lemma run_start_wallet_settled schedule l l' :
  run schedule l = Some l' ->
  port_recorded l ->
  start_wallet l <> Pending ->
  start_wallet l' = start_wallet l.
Proof.
  revert l. induction schedule as [|e rest IH]; intros l Hr Hinv Hw; cbn in Hr.
  - congruence.
  - destruct (step e l) as [l1|] eqn:Hs; [| discriminate].
    pose proof (step_start_wallet_settled _ _ _ Hs Hinv Hw) as H1.
    rewrite (IH l1 Hr); [exact H1 | eapply step_port_recorded; eauto | congruence].
Qed.

(** X4. The port is recorded once. In every state that a schedule
    reaches, [apiPort] is the port of the wallet's description when
    [start.wallet] is fulfilled and 0 otherwise; once [start.wallet] is
    settled it stays as it is; so a recorded port other than 0 never
    changes again. *)
Theorem apiPort_written_once config l0 before l after l' :
  Launcher_new config = Normal l0 ->
  run before l0 = Some l ->
  run after l = Some l' ->
  (forall d, start_wallet l = Fulfilled d ->
     apiPort l = WalletStartService.apiPort d) /\
  ((forall d, start_wallet l <> Fulfilled d) -> apiPort l = 0%Z) /\
  (start_wallet l <> Pending -> start_wallet l' = start_wallet l) /\
  (apiPort l <> 0%Z -> apiPort l' = apiPort l).
Proof.
  intros Hnew Hb Ha. apply Launcher_new_fresh in Hnew as ->.
  assert (Hinv : port_recorded l).
  { eapply run_invariant; [apply step_port_recorded | exact Hb | apply port_recorded_fresh]. }
  assert (Hinv' : port_recorded l').
  { eapply run_invariant; [apply step_port_recorded | exact Ha | exact Hinv]. }
  pose proof (run_start_wallet_settled _ _ _ Ha Hinv) as Hkeep.
  destruct Hinv as (Hchain & Hful & Hnot). destruct Hinv' as (_ & Hful' & _).
  repeat split; try assumption.
  intros Hne. destruct (start_wallet l) as [|d|e] eqn:Hw.
  - exfalso. apply Hne, Hnot. intros d. discriminate.
  - rewrite (Hful d eq_refl). apply Hful'. rewrite Hkeep by discriminate. reflexivity.
  - exfalso. apply Hne, Hnot. intros d. discriminate.
Qed.

(** *** [waitForApi] *)

Lemma step_apiPort e l l' :
  step e l = Some l' ->
  port_recorded l ->
  apiPort l' = apiPort l \/ apiPort l = 0%Z.
Proof.
  intros Hs (Hchain & Hful & Hnot).
  step_cases Hs; by_who; cbn in *; try (left; reflexivity).
  right. apply Hnot. intros d Hd. congruence.
Qed.

(** Reads [H : In o (log l')] after a turn: [o] is what the turn has
    logged, or it was in the log before. *)
Ltac split_in H :=
  rewrite ?In_signalObs in H by reflexivity; cbn in H;
  rewrite ?In_signalObs in H by reflexivity;
  repeat match type of H with
         | _ \/ _ => destruct H as [H | H]; [try discriminate H |]
         end.

(** The guard [0 < sockets p] of a turn, read as a proposition. *)
Ltac sockets_pos :=
  match goal with
  | |- 0 < sockets ?p => destruct (sockets p); [congruence | lia]
  end.

(** A connection attempt is logged by a tick only, for the recorded port,
    which is then not 0. *)
Lemma step_log_connect e l l' p :
  step e l = Some l' ->
  In (ObsConnect p) (log l') ->
  In (ObsConnect p) (log l) \/ (p = apiPort l /\ p <> 0%Z).
Proof.
  intros Hs Hin.
  step_cases Hs; by_who; cbn in *; split_in Hin; try (left; assumption).
  right. simplify_eq. split; [reflexivity |].
  destruct (Z.eqb_spec (apiPort l) 0); [discriminate | assumption].
Qed.

(** A ready notification is logged with the parameters of the recorded
    port, by the connection of a socket that was open. *)
Lemma step_log_ready e l l' api :
  step e l = Some l' ->
  In (ObsEmit (Ready api)) (log l') ->
  In (ObsEmit (Ready api)) (log l) \/
  (api = V2Api (apiPort l) /\
   exists j q, pollers l !! j = Some q /\ 0 < sockets q).
Proof.
  intros Hs Hin.
  step_cases Hs; by_who; cbn in *; split_in Hin; try (left; assumption).
  right. simplify_eq. split; [reflexivity |].
  eexists _, _. split; [eassumption |]. sockets_pos.
Qed.

(** A socket is open after a turn if it was before, or the turn was a
    tick that logged its connection attempt. *)
Lemma step_sockets e l l' j q' :
  step e l = Some l' ->
  pollers l' !! j = Some q' ->
  0 < sockets q' ->
  (exists j0 q, pollers l !! j0 = Some q /\ 0 < sockets q) \/
  (In (ObsConnect (apiPort l)) (log l') /\ apiPort l' = apiPort l).
Proof.
  intros Hs Hq Hpos.
  step_cases Hs; by_who; cbn in *; try (left; eauto; fail);
    try (apply lookup_snoc_Some in Hq as [Hq | ->]; [left; eauto | cbn in Hpos; lia]);
    try (apply list_lookup_insert_Some in Hq as [(-> & <- & _) | [_ Hq]];
         cbn in *; [| left; eauto]).
  all: try (right; split; [left; reflexivity | reflexivity]).
  all: try (left; eexists _, _; split; [eassumption |]; first [sockets_pos | lia]).
Qed.

Lemma step_polls_recorded_port e l l' :
  step e l = Some l' ->
  port_recorded l ->
  polls_recorded_port l -> polls_recorded_port l'.
Proof.
  intros Hs Hport (Hconn & Hsock & Hready).
  assert (Hgrow : forall o, In o (log l) -> In o (log l'))
    by (intros o; apply (step_log_In _ _ _ _ Hs)).
  assert (Hconn' : forall p, In (ObsConnect p) (log l') ->
                             p <> 0%Z /\ p = apiPort l /\ apiPort l' = apiPort l).
  { intros p Hin.
    destruct (step_log_connect _ _ _ _ Hs Hin) as [Hold | [-> Hne]].
    - destruct (Hconn p Hold) as [Hne ->].
      destruct (step_apiPort _ _ _ Hs Hport) as [Hsame | Hzero]; [auto | congruence].
    - destruct (step_apiPort _ _ _ Hs Hport) as [Hsame | Hzero]; [auto | congruence]. }
  assert (Hsock' : forall j q, pollers l' !! j = Some q -> 0 < sockets q ->
                               In (ObsConnect (apiPort l)) (log l') /\
                               apiPort l' = apiPort l).
  { intros j q Hq Hpos.
    destruct (step_sockets _ _ _ _ _ Hs Hq Hpos) as [(j0 & q0 & Hq0 & Hpos0) | [Hin Hsame]].
    - pose proof (Hgrow _ (Hsock _ _ Hq0 Hpos0)) as Hin.
      split; [exact Hin |]. apply (Hconn' _ Hin).
    - split; assumption. }
  split; [| split].
  - intros p Hin. destruct (Hconn' p Hin) as (Hne & -> & ->). auto.
  - intros j q Hq Hpos. destruct (Hsock' j q Hq Hpos) as [Hin ->]. exact Hin.
  - intros api Hin.
    assert (Hc : api = V2Api (apiPort l) /\ In (ObsConnect (apiPort l)) (log l')).
    { destruct (step_log_ready _ _ _ _ Hs Hin) as [Hold | (-> & j & q & Hq & Hpos)].
      - destruct (Hready api Hold) as [-> Hc]. auto.
      - split; [reflexivity |]. apply Hgrow. eapply Hsock; eauto. }
    destruct Hc as [-> Hc]. destruct (Hconn' _ Hc) as (_ & _ & ->). auto.
Qed.

Lemma polls_recorded_port_fresh config : polls_recorded_port (fresh config).
Proof.
  split; [| split]; cbn; try tauto. intros j q H. destruct j; discriminate H.
Qed.

Lemma run_polls_recorded_port config schedule l :
  run schedule (fresh config) = Some l ->
  port_recorded l /\ polls_recorded_port l.
Proof.
  intros Hrun.
  apply (run_invariant (fun l => port_recorded l /\ polls_recorded_port l))
    with (schedule := schedule) (l := fresh config); [| exact Hrun |].
  - intros e l1 l2 Hs [Hp Hq]. split.
    + eapply step_port_recorded; eauto.
    + eapply step_polls_recorded_port; eauto.
  - split; [apply port_recorded_fresh | apply polls_recorded_port_fresh].
Qed.

(** X5. Along every schedule, every TCP connection attempt of
    [waitForApi] went to a port other than 0, and that port is the port
    recorded for the wallet (which [getApi] answers with). *)
Theorem connections_go_to_recorded_port config l0 schedule l p :
  Launcher_new config = Normal l0 ->
  run schedule l0 = Some l ->
  In (ObsConnect p) (log l) ->
  p <> 0%Z /\ p = apiPort l /\ port (requestParams (getApi l)) = p.
Proof.
  intros Hnew Hrun Hin. apply Launcher_new_fresh in Hnew as ->.
  destruct (run_polls_recorded_port _ _ _ Hrun) as [_ (Hconn & _ & _)].
  destruct (Hconn p Hin) as [Hne ->]. auto.
Qed.

(** X6. Along every schedule, every ready notification carries the
    parameters of the recorded port, which is then not 0, and a connection
    attempt to that port was made before: the launcher never reports the
    API ready without having reached it. *)
Theorem ready_after_connection config l0 schedule l api :
  Launcher_new config = Normal l0 ->
  run schedule l0 = Some l ->
  In (ObsEmit (Ready api)) (log l) ->
  api = V2Api (apiPort l) /\
  apiPort l <> 0%Z /\
  In (ObsConnect (apiPort l)) (log l).
Proof.
  intros Hnew Hrun Hin. apply Launcher_new_fresh in Hnew as ->.
  destruct (run_polls_recorded_port _ _ _ Hrun) as [_ (Hconn & _ & Hready)].
  destruct (Hready api Hin) as [-> Hc]. destruct (Hconn _ Hc) as [Hne _]. auto.
Qed.

(** *** A node description that fails *)



(** *** A settled poller *)

Lemma step_poller_settled e l l' j p :
  step e l = Some l' ->
  pollers l !! j = Some p ->
  outcome p <> Pending ->
  timer p = false ->
  exists p', pollers l' !! j = Some p' /\ outcome p' = outcome p /\ timer p' = false.
Proof.
  intros Hs Hp Hout Ht.
  step_cases Hs; by_who; cbn in *; eauto;
    try (eexists; split; [apply lookup_app_l_Some; eassumption | auto]; fail).
  all: match goal with
       | |- context [<[?j0 := _]> _] => destruct (decide (j0 = j)) as [-> | Hne]
       end;
    [ | eexists; split; [rewrite list_lookup_insert_ne by assumption; eassumption | auto] ].
  all: simplify_eq; try congruence.
  all: eexists; (split; [apply list_lookup_insert_eq; eapply lookup_lt_Some; eassumption |]);
    cbn; split; try reflexivity; try assumption; try congruence.
  all: destruct (outcome p); cbn; congruence.
Qed.

(** X8. A promise of [waitForApi] is settled once. Along every
    schedule, once the promise of a poller is fulfilled or rejected it
    stays as it is whatever connects afterwards, its timer is cleared and
    stays cleared, and the poller never ticks again. *)
Theorem settled_poller_stays config l0 before l after l' j p :
  Launcher_new config = Normal l0 ->
  run before l0 = Some l ->
  pollers l !! j = Some p ->
  outcome p <> Pending ->
  run after l = Some l' ->
  exists p',
    pollers l' !! j = Some p' /\
    outcome p' = outcome p /\
    timer p' = false /\
    step (PollTick j) l' = None.
Proof.
  intros Hnew Hb Hp Hout Ha. apply Launcher_new_fresh in Hnew as ->.
  assert (Ht : timer p = false).
  { assert (Hinv : timers_pending l).
    { eapply run_invariant;
        [apply step_timers_pending | exact Hb | apply timers_pending_fresh]. }
    destruct (timer p) eqn:Ht; [| reflexivity].
    destruct (Hout (Hinv _ _ Hp Ht)). }
  clear Hb.
  assert (Hkeep : exists p', pollers l' !! j = Some p' /\
                             outcome p' = outcome p /\ timer p' = false).
  { revert l p Hp Hout Ht Ha.
    induction after as [|e rest IH]; intros l p Hp Hout Ht Ha; cbn in Ha.
    - simplify_eq. eauto.
    - destruct (step e l) as [l1|] eqn:Hs; [| discriminate].
      destruct (step_poller_settled _ _ _ _ _ Hs Hp Hout Ht) as (p1 & Hp1 & Ho1 & Ht1).
      destruct (IH l1 p1 Hp1 ltac:(congruence) Ht1 Ha) as (p' & Hp' & Ho' & Ht').
      exists p'. repeat split; congruence. }
  destruct Hkeep as (p' & Hp' & Ho' & Ht').
  exists p'. repeat split; try assumption.
  cbn. rewrite Hp'. cbn. rewrite Ht'. reflexivity.
Qed.

(** *** [combineStatus] once more *)

Lemma combineStatus_by_cases (statuses : list ServiceExitStatus) :
  combineStatus statuses =
  match firstCode statuses with
  | Some c => c
  | None => if anySignal statuses then 127%Z else 0%Z
  end.
Proof.
  unfold combineStatus.
  rewrite fold_code_first. destruct (firstCode statuses) as [c|]; [reflexivity |].
  pose proof (fold_signal_any statuses) as Hs.
  destruct (fold_left _ statuses None), (anySignal statuses); cbn in Hs;
    congruence.
Qed.

Lemma firstCode_not_silent (statuses : list ServiceExitStatus) :
  firstCode (List.filter (fun s => negb (silent s)) statuses) = firstCode statuses.
Proof.
  induction statuses as [|s rest IH]; [reflexivity |].
  cbn. unfold silent at 1. destruct (code s) as [c|] eqn:Hc; cbn.
  - rewrite Hc. reflexivity.
  - destruct (signal s); cbn; rewrite ?Hc; exact IH.
Qed.

Lemma anySignal_not_silent (statuses : list ServiceExitStatus) :
  anySignal (List.filter (fun s => negb (silent s)) statuses) = anySignal statuses.
Proof.
  unfold anySignal.
  induction statuses as [|s rest IH]; [reflexivity |].
  cbn. unfold silent at 1. destruct (signal s) as [sg|] eqn:Hsg; cbn.
  - rewrite andb_false_r. cbn. rewrite Hsg. reflexivity.
  - destruct (code s); cbn; rewrite ?Hsg; exact IH.
Qed.

Lemma firstCode_same (xs ys : list ServiceExitStatus) :
  List.map (fun s => (code s, signal s)) xs =
  List.map (fun s => (code s, signal s)) ys ->
  firstCode xs = firstCode ys.
Proof.
  revert ys. induction xs as [|x xs IH]; intros [|y ys] Hmap;
    cbn in *; try discriminate; [reflexivity |].
  injection Hmap as Hcx Hsx Hrest. rewrite Hcx, (IH _ Hrest). reflexivity.
Qed.

Lemma anySignal_same (xs ys : list ServiceExitStatus) :
  List.map (fun s => (code s, signal s)) xs =
  List.map (fun s => (code s, signal s)) ys ->
  anySignal xs = anySignal ys.
Proof.
  unfold anySignal. revert ys. induction xs as [|x xs IH]; intros [|y ys] Hmap;
    cbn in *; try discriminate; [reflexivity |].
  injection Hmap as Hcx Hsx Hrest. rewrite Hsx, (IH _ Hrest). reflexivity.
Qed.

(** X9. [combineStatus] reads the codes and the signals only. Entries
    with neither a code nor a signal, such as the exit status of a process
    that could not be spawned, which has an error only, can be left out
    without changing the result; a list of such entries only gives 0; and
    two lists with the same codes and signals give the same result,
    whatever their program names and errors. *)
Theorem combineStatus_reads_codes_and_signals :
  (forall statuses,
      combineStatus (List.filter (fun s => negb (silent s)) statuses) =
      combineStatus statuses) /\
  (forall statuses,
      forallb silent statuses = true -> combineStatus statuses = 0%Z) /\
  (forall xs ys,
      List.map (fun s => (code s, signal s)) xs =
      List.map (fun s => (code s, signal s)) ys ->
      combineStatus xs = combineStatus ys).
Proof.
  split; [| split].
  - intros statuses.
    rewrite !combineStatus_by_cases, firstCode_not_silent, anySignal_not_silent.
    reflexivity.
  - intros statuses Hall. rewrite combineStatus_by_cases.
    induction statuses as [|s rest IH]; [reflexivity |].
    cbn in *. apply andb_prop in Hall as [Hs Hrest].
    unfold silent in Hs. apply andb_prop in Hs as [Hc Hsg].
    destruct (code s); [discriminate |]. destruct (signal s); [discriminate |].
    cbn. exact (IH Hrest).
  - intros xs ys Hmap.
    rewrite !combineStatus_by_cases, (firstCode_same _ _ Hmap), (anySignal_same _ _ Hmap).
    reflexivity.
Qed.

(** *** What [start()] and [stop()] wait for *)

Lemma step_polls_after_spawns e l l' :
  step e l = Some l' -> polls_after_spawns l -> polls_after_spawns l'.
Proof.
  unfold polls_after_spawns. intros Hs (Hn & Hw & Hcall & Hstart & Hpoll).
  step_cases Hs; by_who; cbn in *; service_cases; cbn in *;
    rewrite ?Service_stop_startCalled, ?Service_stop_spawned in *; cbn in *;
    rewrite ?Service_stop_startCalled, ?Service_stop_spawned in *;
    rewrite ?In_signalObs by reflexivity; cbn;
    rewrite ?In_signalObs by reflexivity;
    repeat match goal with
           | H : _ && _ = true |- _ => apply andb_prop in H as [? ?]
           | H : negb _ = true |- _ => apply negb_true_iff in H
           end;
    try (intuition congruence).
  all: repeat split; try (intuition congruence).
  all: intros Hne; apply Hpoll; intros Heq; apply Hne; rewrite Heq; reflexivity.
Qed.

Lemma polls_after_spawns_fresh config : polls_after_spawns (fresh config).
Proof. cbv [polls_after_spawns fresh]. cbn. intuition congruence. Qed.

(** X10. [waitForApi] is called after both spawns. Along every
    schedule, when a call of [start()] is past its two [await]s (it waits
    on its listeners or is settled), or when there is a poller, the log
    holds the confirmed spawn of the node process and that of the wallet
    process. *)
Theorem polling_starts_after_both_spawns config l0 schedule l :
  Launcher_new config = Normal l0 ->
  run schedule l0 = Some l ->
  (exists i c, starts l !! i = Some c /\ pastAwaits c = true) \/ pollers l <> [] ->
  In (ObsSpawn Node true) (log l) /\ In (ObsSpawn Wallet true) (log l).
Proof.
  intros Hnew Hrun Hpast. apply Launcher_new_fresh in Hnew as ->.
  assert (Hinv : polls_after_spawns l).
  { eapply run_invariant;
      [apply step_polls_after_spawns | exact Hrun | apply polls_after_spawns_fresh]. }
  assert (Hcount : ready_per_start l).
  { eapply run_invariant;
      [apply step_ready_per_start | exact Hrun | apply ready_per_start_fresh]. }
  destruct Hinv as (Hn & Hw & Hcall & Hstart & Hpoll).
  assert (Hp : pollers l <> []).
  { destruct Hpast as [(i & c & Hi & Hc) | Hp]; [| exact Hp].
    destruct Hcount as [_ Hlen]. intros Hnil. rewrite Hnil in Hlen. cbn in Hlen.
    assert (Hin : In c (List.filter pastAwaits (starts l))).
    { apply List.filter_In. split; [| exact Hc].
      apply list_elem_of_In, list_elem_of_lookup. eauto. }
    destruct (List.filter pastAwaits (starts l)); [destruct Hin | discriminate Hlen]. }
  pose proof (Hpoll Hp) as Hsw.
  split; [apply Hn, Hcall, Hstart, Hsw | apply Hw, Hsw].
Qed.

(** An exit notification is logged by the [then] of [stop()] only, with
    the exit statuses of the two stopped services. *)
Lemma step_log_exit e l l' st :
  step e l = Some l' ->
  In (ObsEmit (Exit st)) (log l') ->
  In (ObsEmit (Exit st)) (log l) \/
  (getStatus (walletService l) = Stopped /\
   getStatus (nodeService l) = Stopped /\
   exists wallet node,
     exitStatus (walletService l) = Some wallet /\
     exitStatus (nodeService l) = Some node /\
     st = [("wallet", wallet); ("node", node)]).
Proof.
  intros Hs Hin.
  step_cases Hs; by_who; cbn in *; split_in Hin; try (left; assumption).
  right. simplify_eq. eauto 10.
Qed.

Lemma step_exit_is_final e l l' :
  step e l = Some l' -> exit_is_final l -> exit_is_final l'.
Proof.
  intros Hs Hinv st Hin.
  assert (Hold : getStatus (walletService l) = Stopped /\
                 getStatus (nodeService l) = Stopped /\
                 exists wallet node,
                   exitStatus (walletService l) = Some wallet /\
                   exitStatus (nodeService l) = Some node /\
                   st = [("wallet", wallet); ("node", node)]).
  { destruct (step_log_exit _ _ _ _ Hs Hin) as [H | H]; [exact (Hinv _ H) | exact H]. }
  destruct Hold as (Hw & Hn & wallet & node & Hew & Hen & ->).
  destruct (step_Stopped_service _ _ _ Wallet Hs Hw) as [Hw' Hew'].
  destruct (step_Stopped_service _ _ _ Node Hs Hn) as [Hn' Hen'].
  cbn in *. repeat split; try assumption.
  exists wallet, node. repeat split; congruence.
Qed.

(** X11. Along every schedule, an exit notification is emitted only when
    both services are stopped, and it carries the object with the exit
    status of the wallet first and that of the node second, as they are
    and stay in the two services. *)
Theorem exit_carries_final_statuses config l0 schedule l st :
  Launcher_new config = Normal l0 ->
  run schedule l0 = Some l ->
  In (ObsEmit (Exit st)) (log l) ->
  getStatus (walletService l) = Stopped /\
  getStatus (nodeService l) = Stopped /\
  exists wallet node,
    exitStatus (walletService l) = Some wallet /\
    exitStatus (nodeService l) = Some node /\
    st = [("wallet", wallet); ("node", node)].
Proof.
  intros Hnew Hrun Hin. apply Launcher_new_fresh in Hnew as ->.
  assert (Hinv : exit_is_final l).
  { eapply run_invariant; [apply step_exit_is_final | exact Hrun |].
    intros st' []. }
  exact (Hinv _ Hin).
Qed.

Lemma step_exit_was_returned e l l' :
  step e l = Some l' -> exit_was_returned l -> exit_was_returned l'.
Proof.
  intros Hs Hinv st Hin.
  step_cases Hs; by_who; cbn in *; split_in Hin;
    try (exact (Hinv _ Hin));
    try (destruct (Hinv _ Hin) as [k' Hk']; exists k';
         first [ apply lookup_app_l_Some; exact Hk'
               | rewrite list_lookup_insert_ne by congruence; exact Hk' ]).
  simplify_eq. eexists. apply list_lookup_insert_eq. eapply lookup_lt_Some. eassumption.
Qed.

(** X12. Along every schedule, the status that an exit notification
    carries is a status that a call of [stop()] has returned, and every
    call of [stop()] that has returned has returned that status. *)
Theorem exit_carries_what_stop_returns config l0 schedule l st :
  Launcher_new config = Normal l0 ->
  run schedule l0 = Some l ->
  In (ObsEmit (Exit st)) (log l) ->
  (exists k, stops l !! k = Some (Some st)) /\
  forall k st', stops l !! k = Some (Some st') -> st' = st.
Proof.
  intros Hnew Hrun Hin. apply Launcher_new_fresh in Hnew as ->.
  assert (Hret : exit_was_returned l).
  { eapply run_invariant; [apply step_exit_was_returned | exact Hrun |].
    intros st' []. }
  assert (Hfin : stops_final l).
  { eapply run_invariant; [apply step_stops_final | exact Hrun | apply stops_final_fresh]. }
  split; [exact (Hret _ Hin) |].
  intros k st' Hk. destruct (Hret _ Hin) as [k0 Hk0].
  destruct (Hfin _ _ Hk) as (_ & _ & w & n & Hw & Hn & ->).
  destruct (Hfin _ _ Hk0) as (_ & _ & w0 & n0 & Hw0 & Hn0 & ->).
  congruence.
Qed.

(** X13. For the backend "jormungandr", the arguments of the wallet are
    those it gets for "shelley" in the same configuration, then
    "--node-port" with the REST port when one is configured, then
    "--genesis-block-hash" with the hash of the genesis block; and the
    promise is fulfilled whatever the network name. *)
Theorem walletExe_jormungandr_arguments baseDir config freePort c :
  Config.nodeConfig config = Config.jormungandr c ->
  exists d d0,
    walletExe baseDir config freePort = Fulfilled d /\
    walletExe baseDir (withNodeConfig Config.shelley config) freePort = Fulfilled d0 /\
    args (WalletStartService.service d) =
      args (WalletStartService.service d0) ++
      match Config.restPort c with
      | Some p => [Lit "--node-port"; Lit (numberToString p)]
      | None => []
      end ++ [Lit "--genesis-block-hash"; Lit (Config.genesisBlockHash c)].
Proof.
  intros Hk. unfold walletExe, walletExe_body. rewrite Hk. cbn.
  eexists _, _. split; [reflexivity |]. split; [reflexivity |].
  cbn. rewrite <- !app_assoc. reflexivity.
Qed.

End Properties.

(** Four concurrent calls of [stop()]: one exit notification. *)
Lemma exit_fires_at_most_once_witness :
  exists l, run formatMessage fourStops (fresh shelleyTestnet) = Some l
            /\ exitCount l = 1.
Proof.
  eexists. split; [vm_compute; reflexivity |].
  refine (proj2 (exit_fires_at_most_once formatMessage shelleyTestnet
                   (fresh shelleyTestnet) fourStops _ _ _) _).
  - reflexivity.
  - vm_compute. reflexivity.
  - eexists 0, _. vm_compute. reflexivity.
Defined.

(** After the four calls have returned, a fifth call of [stop()] returns the
    same status and sends nothing. *)
Lemma stop_returns_the_same_status_witness :
  exists l l',
    run formatMessage fourStops (fresh shelleyTestnet) = Some l /\
    run formatMessage [CallStop 0; StopSettled 6] l = Some l' /\
    signalsSent l' = signalsSent l /\
    stops l' !! 6 = stops l !! 0.
Proof.
  eexists _, _. split; [vm_compute; reflexivity |].
  split; [vm_compute; reflexivity |].
  pose proof (stop_returns_the_same_status formatMessage shelleyTestnet
                (fresh shelleyTestnet) fourStops [CallStop 0; StopSettled 6]
                _ _ 0 _ eq_refl
                ltac:(vm_compute; reflexivity) ltac:(vm_compute; reflexivity)
                ltac:(vm_compute; reflexivity)) as [Hsig Hst].
  split; [exact Hsig |].
  vm_compute. reflexivity.
Defined.

(** The wallet's description is computed before the node process is
    spawned, in a run of [start()]. *)
Lemma wallet_description_before_node_spawn :
  exists l older,
    run formatMessage descriptionsFirst (fresh shelleyTestnet) = Some l /\
    log l = ObsSpawn Node true :: ObsWalletCommand :: older /\
    ~ In (ObsSpawn Node true) older.
Proof.
  eexists _, _. split; [vm_compute; reflexivity |]. split; [reflexivity |].
  cbn. intros [H | []]; discriminate H.
Qed.

(** In the log of the start-up, the spawn of the wallet comes after the
    confirmed spawn of the node. *)
Lemma node_spawn_before_wallet_spawn_witness :
  exists l older,
    run formatMessage (startUp 8090) (fresh shelleyTestnet) = Some l /\
    log l = ObsSpawn Wallet true :: older /\
    In (ObsSpawn Node true) older.
Proof.
  eexists _, _. split; [vm_compute; reflexivity |]. split; [reflexivity |].
  refine (proj1 (node_spawn_before_wallet_spawn formatMessage shelleyTestnet
                   (fresh shelleyTestnet) (startUp 8090) _ [] (ObsSpawn Wallet true) _
                   eq_refl _ _) eq_refl).
  - vm_compute. reflexivity.
  - reflexivity.
Defined.

(** The node exits before the port accepts a connection: [start()] is
    rejected with the error of the two exit statuses. *)
Lemma start_rejects_with_exit_status_witness :
  exists l e,
    run formatMessage nodeDies (fresh shelleyTestnet) = Some l /\
    starts l !! 0 = Some (StartRejected e) /\
    exists wallet node,
      In (ObsEmit (Exit [("wallet", wallet); ("node", node)])) (log l) /\
      status e = Some [("wallet", wallet); ("node", node)] /\
      message e = formatMessage wallet +:+ newline +:+ formatMessage node.
Proof.
  eexists _, _. split; [vm_compute; reflexivity |]. split; [reflexivity |].
  exact (start_rejects_with_exit_status formatMessage shelleyTestnet
           (fresh shelleyTestnet) nodeDies _ 0 _ eq_refl
           ltac:(vm_compute; reflexivity) eq_refl).
Defined.

(** Two calls of [start()]: the ready notification is emitted twice. *)
Lemma ready_fires_twice :
  exists l, run formatMessage twoStarts (fresh shelleyTestnet) = Some l /\
            readyCount l = 2.
Proof. eexists. split; vm_compute; reflexivity. Qed.

(** One call of [start()]: one ready notification, with the parameters that
    [start()] is fulfilled with. *)
Lemma ready_at_most_once_per_start_witness :
  exists l,
    run formatMessage (startUp 8090 ++ [PollTick 0; SocketConnected 0])
        (fresh shelleyTestnet) = Some l /\
    readyCount l <= 1 /\
    In (ObsEmit (Ready (V2Api 8090))) (log l).
Proof.
  eexists. split; [vm_compute; reflexivity |].
  destruct (ready_at_most_once_per_start formatMessage shelleyTestnet
              (fresh shelleyTestnet) (startUp 8090 ++ [PollTick 0; SocketConnected 0])
              _ eq_refl ltac:(vm_compute; reflexivity)) as [Hn Hf].
  split; [exact Hn |].
  exact (proj1 (Hf 0 (V2Api 8090) ltac:(vm_compute; reflexivity))).
Defined.



(** With the port 0 configured, the poller of a running launcher ticks
    without end and without a connection attempt. *)
Lemma poll_skips_unknown_port_witness :
  exists l,
    run formatMessage (startUp 8090) (fresh shelleyPortZero) = Some l /\
    run formatMessage (repeat (PollTick 0) 3) l = Some l.
Proof.
  eexists. split; [vm_compute; reflexivity |].
  refine (proj1 (proj2 (poll_skips_unknown_port formatMessage shelleyPortZero
                          (fresh shelleyPortZero) (startUp 8090) _ 0
                          {| timer := true; outcome := Pending; sockets := 0 |}
                          eq_refl _ _ _ _)) _ 3);
    vm_compute; reflexivity.
Defined.


(** A wallet that listens on every address: the API is still reached on
    127.0.0.1, at the port that [getPort()] answered. *)
Lemma getApi_of_recorded_port_witness :
  apiPort publicWithWallet = 8090%Z /\
  hostname (requestParams (getApi publicWithWallet)) = "127.0.0.1".
Proof.
  destruct (proj2 (getApi_of_recorded_port formatMessage) (WalletCommand 8090)
              publicWithNode publicWithWallet
              ltac:(vm_compute; reflexivity) ltac:(vm_compute; discriminate))
    as (freePort & Hfp & Hport).
  injection Hfp as <-.
  split; [exact Hport |].
  now rewrite (proj1 (getApi_of_recorded_port formatMessage) publicWithWallet).
Defined.

(** ** The further properties at concrete inputs *)

Lemma walletExe_serves_recorded_port_witness :
  exists d,
    walletExe "/tmp/state-launcher" byronMainnet 9999 = Fulfilled d /\
    WalletStartService.apiPort d = 8090%Z /\
    command (WalletStartService.service d) = "cardano-wallet-byron".
Proof.
  eexists. split; [vm_compute; reflexivity |].
  destruct (walletExe_serves_recorded_port "/tmp/state-launcher" byronMainnet 9999 _
              ltac:(vm_compute; reflexivity)) as (Hcmd & _ & Hport & _).
  split; [exact Hport | exact Hcmd].
Defined.

Lemma walletExe_byron_arguments_witness :
  exists d d0,
    walletExe "/tmp/state-launcher" byronMainnet 9999 = Fulfilled d /\
    walletExe "/tmp/state-launcher" (withNodeConfig Config.shelley byronMainnet) 9999
      = Fulfilled d0 /\
    args (WalletStartService.service d) =
      args (WalletStartService.service d0) ++
      [Lit "--mainnet"; Lit "--node-socket"; Lit "/tmp/node.socket"].
Proof.
  eexists _, _. split; [vm_compute; reflexivity |].
  destruct (walletExe_byron_arguments "/tmp/state-launcher" byronMainnet 9999 _ _
              eq_refl ltac:(vm_compute; reflexivity))
    as (d0 & network & Hd0 & Hnet & Hargs).
  cbn in Hnet. subst network.
  split; [vm_compute; reflexivity |].
  vm_compute. reflexivity.
Defined.

Lemma walletExe_jormungandr_arguments_witness :
  exists d,
    walletExe "/tmp/state-launcher" jormungandrSelf 8090 = Fulfilled d /\
    exists common,
      args (WalletStartService.service d) =
        common ++ [Lit "--node-port"; Lit "8888"] ++
        [Lit "--genesis-block-hash"; Lit "f8c0622e"].
Proof.
  destruct (walletExe_jormungandr_arguments "/tmp/state-launcher" jormungandrSelf 8090 _
              eq_refl) as (d & d0 & Hd & _ & Hargs).
  exists d. split; [exact Hd |]. eexists. exact Hargs.
Defined.

Lemma apiPort_written_once_witness :
  apiPort afterFourStops = apiPort waiting /\ apiPort waiting = 8090%Z.
Proof.
  split; [| reflexivity].
  refine (proj2 (proj2 (proj2
            (apiPort_written_once formatMessage shelleyTestnet (fresh shelleyTestnet)
               (startUp 8090) waiting
               [PollTick 0; SocketConnected 0;
                CallStop 10; CallStop 10; CallStop 10; CallStop 10;
                ProcessExited Wallet (ExitCode 0);
                ProcessExited Node (ExitSignal "SIGKILL");
                StopSettled 0; StopSettled 1; StopSettled 2; StopSettled 3;
                StopSettled 4; StopSettled 5]
               afterFourStops eq_refl _ _))) _);
    vm_compute; try reflexivity; discriminate.
Defined.

Lemma connections_go_to_recorded_port_witness :
  port (requestParams (getApi afterFourStops)) = 8090%Z.
Proof.
  refine (proj2 (proj2
            (connections_go_to_recorded_port formatMessage shelleyTestnet
               (fresh shelleyTestnet) fourStops afterFourStops 8090 eq_refl _ _)));
    vm_compute; [reflexivity | tauto].
Defined.

Lemma ready_after_connection_witness :
  In (ObsConnect (apiPort afterFourStops)) (log afterFourStops).
Proof.
  refine (proj2 (proj2
            (ready_after_connection formatMessage shelleyTestnet
               (fresh shelleyTestnet) fourStops afterFourStops (V2Api 8090) eq_refl _ _)));
    vm_compute; [reflexivity | tauto].
Defined.


Lemma settled_poller_stays_witness :
  exists p',
    pollers afterFourStops !! 0 = Some p' /\
    outcome p' = Fulfilled tt /\
    timer p' = false /\
    step formatMessage (PollTick 0) afterFourStops = None.
Proof.
  refine (settled_poller_stays formatMessage shelleyTestnet (fresh shelleyTestnet)
            (startUp 8090 ++ [PollTick 0; SocketConnected 0])
            _
            [CallStop 10; CallStop 10; CallStop 10; CallStop 10;
             ProcessExited Wallet (ExitCode 0);
             ProcessExited Node (ExitSignal "SIGKILL");
             StopSettled 0; StopSettled 1; StopSettled 2; StopSettled 3;
             StopSettled 4; StopSettled 5]
            afterFourStops 0
            {| timer := false; outcome := Fulfilled tt; sockets := 0 |}
            eq_refl _ _ _ _);
    try (vm_compute; reflexivity); discriminate.
Defined.

Lemma polling_starts_after_both_spawns_witness :
  In (ObsSpawn Node true) (log waiting) /\ In (ObsSpawn Wallet true) (log waiting).
Proof.
  refine (polling_starts_after_both_spawns formatMessage shelleyTestnet
            (fresh shelleyTestnet) (startUp 8090) waiting eq_refl _ _).
  - vm_compute. reflexivity.
  - right. discriminate.
Defined.

Lemma exit_carries_final_statuses_witness :
  getStatus (walletService afterBothExits) = Stopped /\
  getStatus (nodeService afterBothExits) = Stopped.
Proof.
  destruct (exit_carries_final_statuses formatMessage shelleyTestnet
              (fresh shelleyTestnet) nodeDies' afterBothExits
              [("wallet", exitStatusOf "cardano-wallet-shelley" (ExitCode 0));
               ("node", exitStatusOf "cardano-node" (ExitCode 1))]
              eq_refl ltac:(vm_compute; reflexivity) ltac:(vm_compute; tauto))
    as (Hw & Hn & _).
  split; assumption.
Defined.

Lemma exit_carries_what_stop_returns_witness :
  exists k,
    stops afterBothExits !! k =
    Some (Some [("wallet", exitStatusOf "cardano-wallet-shelley" (ExitCode 0));
                ("node", exitStatusOf "cardano-node" (ExitCode 1))]).
Proof.
  refine (proj1 (exit_carries_what_stop_returns formatMessage shelleyTestnet
                   (fresh shelleyTestnet) nodeDies' afterBothExits _ eq_refl _ _)).
  - vm_compute. reflexivity.
  - vm_compute. tauto.
Defined.
